(** * Steel Plants Dashboard: the normalization and aggregation pipeline

    A shallow embedding of [load_data] of [src/dashboard.py]
    ([_standardize_columns], [_extract_lat_lon], [_aggregate_duplicates])
    and of the script that follows it (filter options, filters, figures
    and map), with the properties the specification states about them.

    A [DataFrame] is a list of column labels and a list of rows; a cell
    is missing, a number or a text.  The pandas operations the program
    calls ([drop], [rename], column assignment, [to_numeric], row-wise
    [sum], [groupby(...).agg(...)]) are written out as list functions.

    Conventions of the embedding:
    - numbers are an abstract type with addition, zero and a total
      order ([Numeric]); Python's [float] and pandas' numeric parser are
      operations of that type, so no property depends on how a decimal
      text is rounded;
    - [NaN], [None] and [pd.NA] are one missing value, [NA];
    - texts are ASCII strings;
    - a label names one column: where the program reads [df[c]], the
      embedding reads the first column labelled [c] ([pd.read_csv]
      hands out pairwise distinct labels);
    - a Python exception is a [Raise] result. *)

From Stdlib Require Import Ascii.
From stdpp Require Import base list strings sorting gmap.
From stdpp Require Import options.
#[local] Set Warnings "-clear-no-such-hyp".

Local Open Scope Z_scope.

(** ** Python string operations (on ASCII text) *)

Module PyStr.

(** [str.isspace] for one ASCII character: tab, line feed, vertical
    tab, form feed, carriage return, the four separators 28-31, space. *)
Definition isspace (a : ascii) : bool :=
  let n := N_of_ascii a in
  ((9 <=? n) && (n <=? 13) || (28 <=? n) && (n <=? 32))%N.

Fixpoint lstrip (s : string) : string :=
  match s with
  | String a s' => if isspace a then lstrip s' else s
  | EmptyString => EmptyString
  end.

(** [rstrip] keeps a character when it is not a space or when something
    survives to its right. *)
Fixpoint rstrip (s : string) : string :=
  match s with
  | String a s' =>
      match rstrip s' with
      | EmptyString => if isspace a then EmptyString else String a EmptyString
      | t => String a t
      end
  | EmptyString => EmptyString
  end.

(** [s.strip()] *)
Definition strip (s : string) : string := rstrip (lstrip s).

Definition lower_ascii (a : ascii) : ascii :=
  let n := N_of_ascii a in
  if ((65 <=? n) && (n <=? 90))%N then ascii_of_N (n + 32) else a.

(** [s.lower()] *)
Fixpoint lower (s : string) : string :=
  match s with
  | String a s' => String (lower_ascii a) (lower s')
  | EmptyString => EmptyString
  end.

(** [s.startswith(p)] *)
Fixpoint startswith (p s : string) : bool :=
  match p, s with
  | EmptyString, _ => true
  | String a p', String b s' => bool_decide (a = b) && startswith p' s'
  | String _ _, EmptyString => false
  end.

(** [p in s] *)
Fixpoint contains (p s : string) : bool :=
  startswith p s ||
  match s with
  | String _ s' => contains p s'
  | EmptyString => false
  end.

(** [s.split(sep)] for a one-character separator. *)
Fixpoint split (sep : ascii) (s : string) : list string :=
  match s with
  | EmptyString => [EmptyString]
  | String a s' =>
      if bool_decide (a = sep) then EmptyString :: split sep s'
      else match split sep s' with
           | p :: ps => String a p :: ps
           | [] => [String a EmptyString]
           end
  end.

(** Number of occurrences of a character. *)
Fixpoint count (c : ascii) (s : string) : nat :=
  match s with
  | String a s' => (if bool_decide (a = c) then 1 else 0)%nat + count c s'
  | EmptyString => 0%nat
  end.

End PyStr.

(** ** Cells, numbers and tables *)

(** The numeric type of the table (pandas [float64]/[int64] values that
    are not NaN) with the operations the pipeline uses on it.
    [py_float s] is Python's [float(s)]: [None] when it raises
    [ValueError], [Some None] when it returns NaN, [Some (Some x)] for a
    number.  [to_numeric s] is what [pd.to_numeric(..., errors="coerce")]
    makes of a text value: [None] when the value is coerced to NaN. *)
Class Numeric (num : Type) := {
  num_eq_dec :: EqDecision num;
  num_zero : num;
  num_add : num → num → num;
  num_le : relation num;
  num_le_dec :: RelDecision num_le;
  py_float : string → option (option num);
  to_numeric : string → option num
}.

(** The order of numbers is a total order. *)
Class NumericLaws (num : Type) `{Numeric num} : Prop := {
  num_le_po :: PartialOrder (num_le (num:=num));
  num_le_total :: Total (num_le (num:=num))
}.

(** A table cell: missing ([NaN], [None], [pd.NA]), a number, a text. *)
Inductive cell {num : Type} : Type :=
  | NA
  | Num (x : num)
  | Str (s : string).
Arguments cell : clear implicits.

#[export] Instance cell_eq_dec {num} `{EqDecision num} : EqDecision (cell num).
Proof. solve_decision. Defined.

(** A [pd.DataFrame]: the column labels in order and the rows in index
    order, each row holding one cell per column. *)
Record DataFrame {num : Type} : Type := mkDF {
  columns : list string;
  data : list (list (cell num))
}.
Arguments DataFrame : clear implicits.
Arguments mkDF {num} columns data.

(** Exceptions the pipeline can raise. *)
Inductive exn : Type :=
  | FileNotFoundError (msg : string)
  | IndexError
  | TypeError.

Inductive result (A : Type) : Type :=
  | Ok (a : A)
  | Raise (e : exn).
Arguments Ok {A} a.
Arguments Raise {A} e.

#[export] Instance result_ret : MRet result := λ A a, Ok a.
#[export] Instance result_bind : MBind result := λ A B f m,
  match m with Ok a => f a | Raise e => Raise e end.

Definition TOTAL : string := "Total capacity (ttpa)".
Definition INPUT_FILE : string := "plants_processed.csv".

Section Pipeline.
Context {num : Type} `{Numeric num}.

Local Abbreviation cell := (cell num).
Local Abbreviation DataFrame := (DataFrame num).

(** [pd.isna(value)] *)
Definition isna (v : cell) : bool :=
  match v with NA => true | _ => false end.

(** The cell of a row under a column label (the first column so named). *)
Fixpoint cell_at (cols : list string) (row : list cell) (c : string) : cell :=
  match cols, row with
  | n :: cols', x :: row' => if decide (n = c) then x else cell_at cols' row' c
  | _, _ => NA
  end.

(** [df[c]] as the list of its values. *)
Definition column (df : DataFrame) (c : string) : list cell :=
  (λ r, cell_at (columns df) r c) <$> data df.

(** ** [_standardize_columns] *)

(** Line 16: [df.columns = [c.strip() for c in df.columns]] *)
Definition strip_columns (df : DataFrame) : DataFrame :=
  mkDF (PyStr.strip <$> columns df) (data df).

(** Lines 19-21: [c == "" or c.lower().startswith("unnamed")] *)
Definition is_unnamed (c : string) : bool :=
  bool_decide (c = "") || PyStr.startswith "unnamed" (PyStr.lower c).

(** The cells of a row whose column label satisfies [keep]. *)
Fixpoint select_cells (keep : string → bool) (cols : list string) (row : list cell)
    : list cell :=
  match cols, row with
  | n :: cols', x :: row' =>
      if keep n then x :: select_cells keep cols' row'
      else select_cells keep cols' row'
  | _, _ => []
  end.

(** Line 22, [df.drop(columns=[c])]: every column labelled [c] goes. *)
Definition drop (c : string) (df : DataFrame) : DataFrame :=
  let keep n := bool_decide (n ≠ c) in
  mkDF (filter (λ n, n ≠ c) (columns df))
       (select_cells keep (columns df) <$> data df).

Definition drop_unnamed (df : DataFrame) : DataFrame :=
  match columns df with
  | c :: _ => if is_unnamed c then drop c df else df
  | [] => df
  end.

(** [df.rename(columns={old: new})] *)
Definition rename (old new : string) (df : DataFrame) : DataFrame :=
  mkDF ((λ n, if decide (n = old) then new else n) <$> columns df) (data df).

(** Lines 25-28: rename [old] to [new] unless [new] is already a column. *)
Definition normalize_name (old new : string) (df : DataFrame) : DataFrame :=
  if decide (old ∈ columns df ∧ new ∉ columns df) then rename old new df else df.

Definition cell_of_float (x : option num) : cell :=
  match x with Some x => Num x | None => NA end.

(** Lines 35-45.  [float] of the first part is evaluated first; a
    [ValueError] from either part is caught and gives two missing values. *)
Definition _extract_lat_lon (value : cell) : cell * cell :=
  if isna value then (NA, NA)
  else match value with
       | Str s =>
           if PyStr.contains "," s then
             match PyStr.split "," s with
             | [p0; p1] =>
                 match py_float (PyStr.strip p0), py_float (PyStr.strip p1) with
                 | Some x, Some y => (cell_of_float x, cell_of_float y)
                 | _, _ => (NA, NA)
                 end
             | _ => (NA, NA)
             end
           else (NA, NA)
       | _ => (NA, NA)
       end.

(** Replace, in a row, the cell of every column labelled [c]. *)
Fixpoint set_cell (c : string) (v : cell) (cols : list string) (row : list cell)
    : list cell :=
  match cols, row with
  | n :: cols', x :: row' =>
      (if decide (n = c) then v else x) :: set_cell c v cols' row'
  | _, _ => []
  end.

(** [df[c] = vals]: overwrite the column when the label exists, append a
    new last column otherwise. *)
Definition assign (c : string) (vals : list cell) (df : DataFrame) : DataFrame :=
  if decide (c ∈ columns df)
  then mkDF (columns df) (zip_with (λ r v, set_cell c v (columns df) r) (data df) vals)
  else mkDF (columns df ++ [c]) (zip_with (λ r v, r ++ [v]) (data df) vals).

(** Lines 31-51: [latlon] is computed once, from the table as it is
    before either column is added. *)
Definition extract_coordinates (df : DataFrame) : DataFrame :=
  if decide ("Coordinates" ∈ columns df ∧
             ("latitude" ∉ columns df ∨ "longitude" ∉ columns df))
  then
    let latlon := _extract_lat_lon <$> column df "Coordinates" in
    let df1 := if decide ("latitude" ∉ columns df)
               then assign "latitude" (fst <$> latlon) df else df in
    if decide ("longitude" ∉ columns df1)
    then assign "longitude" (snd <$> latlon) df1 else df1
  else df.

(** ["capacity" in c.lower()] *)
Definition is_capacity (c : string) : bool :=
  PyStr.contains "capacity" (PyStr.lower c).

(** [pd.to_numeric(..., errors="coerce")] on one value. *)
Definition coerce (v : cell) : cell :=
  match v with
  | NA => NA
  | Num x => Num x
  | Str s => match to_numeric s with Some x => Num x | None => NA end
  end.

(** The numbers among some cells, in order. *)
Definition nums (vs : list cell) : list num :=
  omap (λ v, match v with Num x => Some x | _ => None end) vs.

Definition sum_nums (xs : list num) : num := foldl num_add num_zero xs.

(** [.sum(axis=1, min_count=1)] on one row of numeric cells: missing
    values are skipped, and the sum is missing without any value. *)
Definition row_sum (vs : list cell) : cell :=
  match nums vs with
  | [] => NA
  | xs => Num (sum_nums xs)
  end.

(** Line 54: [[c for c in df.columns if "capacity" in c.lower()]] *)
Definition cap_cols (df : DataFrame) : list string :=
  filter (λ c, is_capacity c = true) (columns df).

Definition total_of_row (df : DataFrame) (r : list cell) : cell :=
  row_sum ((λ c, coerce (cell_at (columns df) r c)) <$> cap_cols df).

(** Lines 55-60: nothing is added when no column is capacity-like. *)
Definition add_total_capacity (df : DataFrame) : DataFrame :=
  match cap_cols df with
  | [] => df
  | _ => assign TOTAL (total_of_row df <$> data df) df
  end.

(** The table once the names are cleaned, before coordinates are derived. *)
Definition before_coordinates (df : DataFrame) : DataFrame :=
  normalize_name "Longitude" "longitude"
    (normalize_name "Latitude" "latitude"
       (drop_unnamed (strip_columns df))).

(** The table as it stands before the capacity total is built. *)
Definition before_total (df : DataFrame) : DataFrame :=
  extract_coordinates (before_coordinates df).

(** Lines 14-62. *)
Definition _standardize_columns (df : DataFrame) : DataFrame :=
  add_total_capacity (before_total df).

(** ** [_aggregate_duplicates] *)

Definition KEY_FIELDS : list string :=
  ["Plant name (English)"; "Owner"; "latitude"; "longitude"; "Country/Area"].

Definition FIRST_FIELDS : list string :=
  ["Plant name (English)"; "Owner"; "Location address"; "Country/Area";
   "Region"; "Coordinates"; "Announced date"; "Start date";
   "latitude"; "longitude"].

(** Lines 66-79, the grouping key; [df.columns[0]] raises [IndexError]
    on a table without columns. *)
Definition grouping_key (cols : list string) : result (list string) :=
  if decide ("Plant ID" ∈ cols) then Ok ["Plant ID"]
  else match filter (λ c, c ∈ cols) KEY_FIELDS with
       | [] => match cols with c :: _ => Ok [c] | [] => Raise IndexError end
       | key => Ok key
       end.

Inductive aggfn : Type := AggFirst | AggSum | AggMax.

(** A Python [dict] from column label to aggregation, in insertion order. *)
Fixpoint dict_get (d : list (string * aggfn)) (c : string) : option aggfn :=
  match d with
  | (n, f) :: d' => if decide (n = c) then Some f else dict_get d' c
  | [] => None
  end.

(** [d[c] = f]: an existing key keeps its place, a new key goes last. *)
Definition dict_set (c : string) (f : aggfn) (d : list (string * aggfn))
    : list (string * aggfn) :=
  if decide (c ∈ d.*1)
  then (λ p, if decide (p.1 = c) then (c, f) else p) <$> d
  else d ++ [(c, f)].

(** Lines 82-89. *)
Definition numeric_sum (cols : list string) : list string :=
  (if decide (TOTAL ∈ cols) then [TOTAL] else []) ++
  filter (λ c, is_capacity c = true ∧ c ≠ TOTAL) cols.

(** Lines 91-111: ["first"] for every column outside the key, then
    ["sum"] for the capacity family, ["max"] for [Workforce size], and
    ["first"] again for the listed fields that are in the dictionary. *)
Definition agg_spec (cols key : list string) : list (string * aggfn) :=
  let agg0 := foldl (λ d c, dict_set c AggFirst d) []
                    (filter (λ c, c ∉ key) cols) in
  let agg1 := foldl (λ d c, dict_set c AggSum d) agg0 (numeric_sum cols) in
  let agg2 := if decide ("Workforce size" ∈ cols)
              then dict_set "Workforce size" AggMax agg1 else agg1 in
  foldl (λ d c, if decide (c ∈ d.*1) then dict_set c AggFirst d else d)
        agg2 FIRST_FIELDS.

(** The order in which [groupby(sort=True)] lists the values of one key
    column: numbers, then texts, missing last. *)
Definition cell_le (a b : cell) : Prop :=
  match a, b with
  | Num x, Num y => num_le x y
  | Num _, _ => True
  | Str _, Num _ => False
  | Str s, Str t => String.le s t
  | Str _, NA => True
  | NA, NA => True
  | NA, _ => False
  end.

(** Key tuples are ordered column by column. *)
Fixpoint tuple_le (k1 k2 : list cell) : Prop :=
  match k1, k2 with
  | [], _ => True
  | _ :: _, [] => False
  | a :: k1', b :: k2' => (cell_le a b ∧ a ≠ b) ∨ (a = b ∧ tuple_le k1' k2')
  end.

#[export] Instance cell_le_dec : RelDecision cell_le.
Proof. intros [|x|s] [|y|t]; simpl; apply _. Defined.

#[export] Instance tuple_le_dec : RelDecision tuple_le.
Proof.
  intros k1. induction k1 as [|a k1 IH]; intros [|b k2]; simpl; apply _.
Defined.

(** The key tuple of a row. *)
Definition key_of (cols key : list string) (r : list cell) : list cell :=
  cell_at cols r <$> key.

(** [groupby(key, dropna=False)]: one group per distinct key tuple
    (missing values included), listed in ascending key order. *)
Definition group_keys (df : DataFrame) (key : list string) : list (list cell) :=
  merge_sort tuple_le (remove_dups (key_of (columns df) key <$> data df)).

(** The rows of a group, in input order. *)
Definition group_rows (df : DataFrame) (key : list string) (k : list cell)
    : list (list cell) :=
  filter (λ r, key_of (columns df) key r = k) (data df).

Definition group_values (df : DataFrame) (key : list string) (k : list cell)
    (c : string) : list cell :=
  (λ r, cell_at (columns df) r c) <$> group_rows df key k.

Definition texts (vs : list cell) : list string :=
  omap (λ v, match v with Str s => Some s | _ => None end) vs.

(** ["first"]: the first value of the group that is not missing. *)
Definition first_valid (vs : list cell) : cell :=
  default NA (head (filter (λ v, v ≠ NA) vs)).

(** ["sum"] (with pandas' default [min_count=0]): missing values are
    skipped; numbers add up from zero, texts concatenate, and a group
    mixing both raises. *)
Definition agg_sum (vs : list cell) : result cell :=
  match texts vs, nums vs with
  | [], xs => Ok (Num (sum_nums xs))
  | ss, [] => Ok (Str (foldr String.app "" ss))
  | _, _ => Raise TypeError
  end.

Definition num_max (x y : num) : num := if decide (num_le x y) then y else x.
Definition str_max (s t : string) : string := if decide (String.le s t) then t else s.

(** ["max"]: missing values are skipped among numbers; texts compare
    with texts only. *)
Definition agg_max (vs : list cell) : result cell :=
  match texts vs with
  | [] => Ok (match nums vs with
              | [] => NA
              | x :: xs => Num (foldl num_max x xs)
              end)
  | s :: ss =>
      if decide (length (texts vs) = length vs)
      then Ok (Str (foldl str_max s ss)) else Raise TypeError
  end.

Definition agg_apply (f : aggfn) (vs : list cell) : result cell :=
  match f with
  | AggFirst => Ok (first_valid vs)
  | AggSum => agg_sum vs
  | AggMax => agg_max vs
  end.

(** With [as_index=False] the key columns come first, unless the
    aggregation already produced a column of that label. *)
Definition out_keys (key : list string) (agg : list (string * aggfn)) : list string :=
  filter (λ n, n ∉ agg.*1) key.

Definition agg_row (df : DataFrame) (key : list string)
    (agg : list (string * aggfn)) (k : list cell) : result (list cell) :=
  vals ← mapM (λ p, agg_apply p.2 (group_values df key k p.1)) agg;
  Ok ((cell_at key k <$> out_keys key agg) ++ vals).

(** [df.groupby(key, dropna=False, as_index=False).agg(agg)] *)
Definition groupby_agg (df : DataFrame) (key : list string)
    (agg : list (string * aggfn)) : result DataFrame :=
  rows ← mapM (agg_row df key agg) (group_keys df key);
  Ok (mkDF (out_keys key agg ++ agg.*1) rows).

(** Lines 64-113. *)
Definition _aggregate_duplicates (df : DataFrame) : result DataFrame :=
  key ← grouping_key (columns df);
  groupby_agg df key (agg_spec (columns df) key).

(** ** [load_data] *)

(** Lines 116-124.  The file system maps a path to the table
    [pd.read_csv] reads there. *)
Definition load_data (fs : gmap string DataFrame) : result DataFrame :=
  match fs !! INPUT_FILE with
  | None =>
      Raise (FileNotFoundError
        "plants_processed.csv not found. Please place the file next to the app.")
  | Some df =>
      _aggregate_duplicates (_standardize_columns df)
  end.

End Pipeline.

(** ** The dashboard: filter options, filters and figures

    The script below [load_data] (lines 127-222).  What a widget returns
    is the user's choice, so the selections and the capacity range are
    arguments of the functions that use them. *)

Section Dashboard.
Context {num : Type} `{HN : Numeric num}.

Local Abbreviation cell := (cell num).
Local Abbreviation DataFrame := (DataFrame num).

(** Line 128, [df.empty]: no columns or no rows; the script stops there. *)
Definition empty (df : DataFrame) : bool :=
  bool_decide (columns df = [] ∨ data df = []).

(** Lines 133-140: a filter exists for a column the table has. *)
Definition optional_col (c : string) (df : DataFrame) : option string :=
  if decide (c ∈ columns df) then Some c else None.

Definition company_col : DataFrame → option string := optional_col "Owner".
Definition region_col : DataFrame → option string := optional_col "Region".
Definition country_col : DataFrame → option string := optional_col "Country/Area".
Definition capacity_col : DataFrame → option string := optional_col TOTAL.

(** [Series.dropna()] *)
Definition dropna (vs : list cell) : list cell := filter (λ v, v ≠ NA) vs.

(** [Series.unique()]: each value once, in order of first appearance. *)
Fixpoint unique (vs : list cell) : list cell :=
  match vs with
  | [] => []
  | v :: vs' => v :: filter (λ x, x ≠ v) (unique vs')
  end.

(** [sorted(values)] on values that are not missing: Python compares
    numbers with numbers and texts with texts, and raises [TypeError]
    when it has to compare a number with a text. *)
Definition py_sorted (vs : list cell) : result (list cell) :=
  match nums vs, texts vs with
  | _ :: _, _ :: _ => Raise TypeError
  | _, _ => Ok (merge_sort cell_le vs)
  end.

(** Lines 143, 149, 155: [sorted(df[c].dropna().unique().tolist())] *)
Definition options (c : string) (df : DataFrame) : result (list cell) :=
  py_sorted (unique (dropna (column df c))).

Definition num_min (x y : num) : num := if decide (num_le x y) then x else y.

(** [Series.min()] and [Series.max()] skip missing values; the result is
    NaN ([None]) when nothing is left. *)
Definition series_min (vs : list cell) : option num :=
  match nums vs with [] => None | x :: xs => Some (foldl num_min x xs) end.
Definition series_max (vs : list cell) : option num :=
  match nums vs with [] => None | x :: xs => Some (foldl num_max x xs) end.

(** [max(x, 0.0)]: [x] unless [0.0 > x]; a NaN [x] stays. *)
Definition py_max_zero (x : option num) : option num :=
  match x with
  | Some x => Some (if decide (num_le num_zero x) then x else num_zero)
  | None => None
  end.

(** Lines 160-171: the [value] pair the script hands to the capacity
    slider, when it creates one.  What Streamlit does with its
    arguments is outside the embedding. *)
Definition initial_cap_range (df : DataFrame) : option (option num * option num) :=
  match capacity_col df with
  | Some c =>
      if bool_decide (Exists (λ v, v ≠ NA) (column df c)) then
        let cap_series := coerce <$> column df c in
        Some (py_max_zero (series_min cap_series),
              py_max_zero (series_max cap_series))
      else None
  | None => None
  end.

(** [f[mask]]: the rows where the mask holds, in order. *)
Definition keep_rows (mask : list cell → Prop) `{∀ r, Decision (mask r)}
    (f : DataFrame) : DataFrame :=
  mkDF (columns f) (filter mask (data f)).

(** Lines 175-180: [if selected and col: f = f[f[col].isin(selected)]] *)
Definition filter_isin (col : option string) (selected : list cell)
    (f : DataFrame) : DataFrame :=
  match selected, col with
  | _ :: _, Some c => keep_rows (λ r, cell_at (columns f) r c ∈ selected) f
  | _, _ => f
  end.

(** [Series.between(lo, hi)] after [pd.to_numeric]: both ends included,
    a missing value is outside. *)
Definition between (lo hi : num) (v : cell) : Prop :=
  match coerce v with
  | Num x => num_le lo x ∧ num_le x hi
  | _ => False
  end.

#[export] Instance between_dec lo hi v : Decision (between lo hi v).
Proof. unfold between. destruct (coerce v); apply _. Defined.

(** Lines 181-183. *)
Definition filter_capacity (col : option string) (cap_range : option (num * num))
    (f : DataFrame) : DataFrame :=
  match cap_range, col with
  | Some (lo, hi), Some c => keep_rows (λ r, between lo hi (cell_at (columns f) r c)) f
  | _, _ => f
  end.

(** Lines 174-183: the filters run one after the other; which filters
    exist is decided on the unfiltered table. *)
Definition apply_filters (df : DataFrame)
    (selected_companies selected_regions selected_countries : list cell)
    (cap_range : option (num * num)) : DataFrame :=
  filter_capacity (capacity_col df) cap_range
    (filter_isin (country_col df) selected_countries
       (filter_isin (region_col df) selected_regions
          (filter_isin (company_col df) selected_companies df))).

(** Lines 188-196: the three figures. *)
Definition total_plants (f : DataFrame) : nat := length (data f).

Definition total_cap (df f : DataFrame) : num :=
  match capacity_col df with
  | Some c => sum_nums (nums (coerce <$> column f c))
  | None => num_zero
  end.

Definition n_companies (df f : DataFrame) : nat :=
  match company_col df with
  | Some c => length (unique (dropna (column f c)))
  | None => 0
  end.

(** Lines 199-203: the map is drawn when both coordinate columns exist
    and one of them holds a value; it shows the rows that have both. *)
Definition map_is_drawn (f : DataFrame) : bool :=
  bool_decide ("latitude" ∈ columns f ∧ "longitude" ∈ columns f) &&
  bool_decide (Exists (λ v, v ≠ NA) (column f "latitude" ++ column f "longitude")).

Definition map_points (f : DataFrame) : list (list cell) :=
  filter (λ r, cell_at (columns f) r "latitude" ≠ NA ∧
               cell_at (columns f) r "longitude" ≠ NA) (data f).

End Dashboard.

(** ** An integer instance, for evaluating the pipeline on concrete tables *)

Module ZNum.

Definition digit (a : ascii) : option Z :=
  let n := N_of_ascii a in
  if ((48 <=? n) && (n <=? 57))%N then Some (Z.of_N n - 48) else None.

Fixpoint parse_digits (acc : Z) (s : string) : option Z :=
  match s with
  | EmptyString => Some acc
  | String a s' =>
      match digit a with
      | Some d => parse_digits (10 * acc + d) s'
      | None => None
      end
  end.

(** Decimal integers with an optional sign; anything else fails. *)
Definition parse_int (s : string) : option Z :=
  match s with
  | EmptyString => None
  | String "-" (String a s') => Z.opp <$> parse_digits 0 (String a s')
  | String "+" (String a s') => parse_digits 0 (String a s')
  | String "-" EmptyString | String "+" EmptyString => None
  | _ => parse_digits 0 s
  end.

#[export] Instance Z_numeric : Numeric Z := {|
  num_zero := 0;
  num_add := Z.add;
  num_le := Z.le;
  py_float s := Some <$> parse_int s;
  to_numeric := parse_int
|}.

End ZNum.

(** * Properties *)

(** ** Strings *)

Example strip_example : PyStr.strip "  Plant ID  " = "Plant ID".
Proof. reflexivity. Qed.

Example lower_example : PyStr.lower "Unnamed: 0" = "unnamed: 0".
Proof. reflexivity. Qed.

Example split_example :
  PyStr.split "," "41.09, 20.02" = ["41.09"; " 20.02"] ∧
  PyStr.split "," "bad,value,x" = ["bad"; "value"; "x"] ∧
  PyStr.split "," "nocomma" = ["nocomma"].
Proof. by split_and!. Qed.

Example is_capacity_example :
  PyStr.contains "capacity" (PyStr.lower "Nominal crude steel Capacity (ttpa)") = true ∧
  PyStr.contains "capacity" (PyStr.lower "Workforce size") = false.
Proof. by split_and!. Qed.

Lemma app_String a s t : String a s +:+ t = String a (s +:+ t).
Proof. reflexivity. Qed.

Lemma split_length c s : length (PyStr.split c s) = S (PyStr.count c s).
Proof.
  induction s as [|a s IH]; simpl; [done|].
  case_bool_decide; simpl; [by rewrite IH|].
  destruct (PyStr.split c s); simpl in *; lia.
Qed.

Lemma split_no_sep c s : PyStr.count c s = 0%nat → PyStr.split c s = [s].
Proof.
  induction s as [|a s IH]; simpl; [done|].
  case_bool_decide; [done|]. intros Hc. by rewrite IH.
Qed.

Lemma split_app c a b :
  PyStr.count c a = 0%nat →
  PyStr.split c (a +:+ String c b) = a :: PyStr.split c b.
Proof.
  induction a as [|x a IH]; simpl.
  - intros _. change ("" +:+ String c b) with (String c b). simpl.
    by rewrite bool_decide_true.
  - case_bool_decide; [done|]. intros Hc. by rewrite IH.
Qed.

Lemma count_app c a b :
  PyStr.count c (a +:+ b) = (PyStr.count c a + PyStr.count c b)%nat.
Proof.
  induction a as [|x a IH]; [done|]. rewrite app_String. simpl. rewrite IH. lia.
Qed.

Lemma count_one_split c s :
  PyStr.count c s = 1%nat →
  ∃ a b, s = a +:+ String c b ∧ PyStr.count c a = 0%nat ∧ PyStr.count c b = 0%nat.
Proof.
  induction s as [|x s IH]; simpl; [done|].
  case_bool_decide as Hx; intros Hc.
  - subst x. exists "", s. split; [done|]. split; [done|lia].
  - destruct (IH Hc) as (a & b & -> & Ha & Hb).
    exists (String x a), b. split; [done|]. simpl.
    by rewrite bool_decide_false.
Qed.

Lemma contains_char c s :
  PyStr.contains (String c "") s = true ↔ PyStr.count c s ≠ 0%nat.
Proof.
  induction s as [|a s IH]; simpl; [done|].
  rewrite andb_true_r, orb_true_iff, IH, bool_decide_eq_true.
  case_bool_decide as Ha; split.
  - intros _. lia.
  - intros _. left. by rewrite Ha.
  - intros [->|Hc]; [done|]. by rewrite Nat.add_0_l.
  - rewrite Nat.add_0_l. by right.
Qed.

Lemma lstrip_idemp s : PyStr.lstrip (PyStr.lstrip s) = PyStr.lstrip s.
Proof.
  induction s as [|a s IH]; simpl; [done|].
  destruct (PyStr.isspace a) eqn:Ha; [done|]. simpl. by rewrite Ha.
Qed.

Lemma rstrip_idemp s : PyStr.rstrip (PyStr.rstrip s) = PyStr.rstrip s.
Proof.
  induction s as [|a s IH]; simpl; [done|].
  destruct (PyStr.rstrip s) as [|b t] eqn:Hs.
  - destruct (PyStr.isspace a) eqn:Ha; simpl; [done|]. by rewrite Ha.
  - simpl in *. by rewrite IH.
Qed.

(** The head of a right-stripped text is the head of the text, unless
    nothing is left. *)
Lemma lstrip_rstrip s :
  PyStr.lstrip (PyStr.rstrip (PyStr.lstrip s)) = PyStr.rstrip (PyStr.lstrip s).
Proof.
  induction s as [|a s IH]; simpl; [done|].
  destruct (PyStr.isspace a) eqn:Ha; [done|]. simpl.
  destruct (PyStr.rstrip s); rewrite ?Ha; simpl; by rewrite Ha.
Qed.

Lemma strip_idemp s : PyStr.strip (PyStr.strip s) = PyStr.strip s.
Proof.
  unfold PyStr.strip. by rewrite lstrip_rstrip, rstrip_idemp.
Qed.

(** ** Coordinate extraction *)

Section Coordinates.
Context {num : Type} `{HN : Numeric num}.

(** What [_extract_lat_lon] returns once the two parts are known. *)
Definition parsed_pair (p0 p1 : string) : cell num * cell num :=
  match py_float (PyStr.strip p0), py_float (PyStr.strip p1) with
  | Some x, Some y => (cell_of_float x, cell_of_float y)
  | _, _ => (NA, NA)
  end.

Lemma extract_two_parts (a b : string) :
  PyStr.count "," a = 0%nat → PyStr.count "," b = 0%nat →
  _extract_lat_lon (Str (a +:+ "," +:+ b)) = parsed_pair a b.
Proof.
  intros Ha Hb. unfold _extract_lat_lon. cbn [isna].
  assert (PyStr.contains "," (a +:+ "," +:+ b) = true) as ->.
  { apply contains_char. rewrite count_app. simpl. lia. }
  change ("," +:+ b) with (String "," b).
  by rewrite split_app, (split_no_sep _ b).
Qed.

Lemma extract_other_count (s : string) :
  PyStr.count "," s ≠ 1%nat → _extract_lat_lon (num:=num) (Str s) = (NA, NA).
Proof.
  intros Hc. unfold _extract_lat_lon. cbn [isna].
  destruct (PyStr.contains "," s) eqn:Hin; [|done].
  pose proof (split_length "," s) as Hlen.
  destruct (PyStr.split "," s) as [|p0 [|p1 [|p2 ps]]]; simpl in Hlen; try done.
  lia.
Qed.

(** C7: [_extract_lat_lon] sends a missing value, a number, and a text
    that does not hold exactly one comma to (missing, missing); a text
    with exactly one comma is split there, both parts are trimmed and
    parsed with [float], giving the pair of floats when both parse and
    (missing, missing) when one does not.  The spec's examples follow. *)
Theorem extract_lat_lon_spec :
  _extract_lat_lon (num:=num) NA = (NA, NA) ∧
  (∀ x : num, _extract_lat_lon (Num x) = (NA, NA)) ∧
  (∀ s, PyStr.count "," s ≠ 1%nat → _extract_lat_lon (num:=num) (Str s) = (NA, NA)) ∧
  (∀ s, PyStr.count "," s = 1%nat →
     ∃ a b, s = a +:+ "," +:+ b ∧
       PyStr.count "," a = 0%nat ∧ PyStr.count "," b = 0%nat ∧
       _extract_lat_lon (Str s) = parsed_pair a b) ∧
  (∀ a b x y, PyStr.count "," a = 0%nat → PyStr.count "," b = 0%nat →
     py_float (PyStr.strip a) = Some x → py_float (PyStr.strip b) = Some y →
     _extract_lat_lon (Str (a +:+ "," +:+ b)) = (cell_of_float x, cell_of_float y)) ∧
  (∀ a b, PyStr.count "," a = 0%nat → PyStr.count "," b = 0%nat →
     py_float (PyStr.strip a) = None ∨ py_float (PyStr.strip b) = None →
     _extract_lat_lon (num:=num) (Str (a +:+ "," +:+ b)) = (NA, NA)) ∧
  _extract_lat_lon (Str "41.09, 20.02") =
    match py_float "41.09", py_float "20.02" with
    | Some x, Some y => (cell_of_float x, cell_of_float y)
    | _, _ => (NA, NA)
    end ∧
  _extract_lat_lon (num:=num) (Str "bad,value,x") = (NA, NA) ∧
  _extract_lat_lon (num:=num) (Str "nocomma") = (NA, NA).
Proof.
  split_and!; try done.
  - apply extract_other_count.
  - intros s (a & b & -> & Ha & Hb)%count_one_split.
    exists a, b. split_and!; [done..|]. exact (extract_two_parts a b Ha Hb).
  - intros a b x y Ha Hb Hx Hy.
    rewrite extract_two_parts by done. unfold parsed_pair. by rewrite Hx, Hy.
  - intros a b Ha Hb Hf.
    rewrite extract_two_parts by done. unfold parsed_pair.
    destruct Hf as [-> | ->]; [done|]. by destruct (py_float (PyStr.strip a)).
Qed.

End Coordinates.

(** ** The order of group keys *)

Section Orders.
Context {num : Type} `{HN : Numeric num} {HL : NumericLaws num}.

#[export] Instance cell_le_refl : Reflexive (cell_le (num:=num)).
Proof using HL. intros [|x|s]; simpl; done. Qed.

#[export] Instance cell_le_trans : Transitive (cell_le (num:=num)).
Proof using HL.
  intros [|x|s] [|y|t] [|z|u]; simpl; try done; intros; by etrans.
Qed.

#[export] Instance cell_le_antisym : AntiSymm (=) (cell_le (num:=num)).
Proof using HL.
  intros [|x|s] [|y|t]; simpl; try done; intros H1 H2; f_equal.
  - by apply (anti_symm num_le).
  - by apply (anti_symm String.le).
Qed.

#[export] Instance cell_le_total : Total (cell_le (num:=num)).
Proof using HL.
  intros [|x|s] [|y|t]; simpl; auto; apply total; apply _.
Qed.

#[export] Instance tuple_le_refl : Reflexive (tuple_le (num:=num)).
Proof using HL. intros k. induction k; simpl; auto. Qed.

#[export] Instance tuple_le_trans : Transitive (tuple_le (num:=num)).
Proof using HL.
  intros k1. induction k1 as [|a k1 IH]; intros [|b k2] [|c k3]; simpl; try done.
  intros [[Hab Hne]|[-> H12]] [[Hbc Hne']|[-> H23]].
  - left. split; [by etrans|]. intros ->. apply Hne. by apply (anti_symm cell_le).
  - left. done.
  - left. done.
  - right. split; [done|]. by eapply IH.
Qed.

#[export] Instance tuple_le_antisym : AntiSymm (=) (tuple_le (num:=num)).
Proof using HL.
  intros k1. induction k1 as [|a k1 IH]; intros [|b k2]; simpl; try done.
  intros [[Hab Hne]|[-> H12]] [[Hba Hne']|[E H21]]; try done.
  - destruct Hne. by apply (anti_symm cell_le).
  - f_equal. by apply IH.
Qed.

#[export] Instance tuple_le_total : Total (tuple_le (num:=num)).
Proof using HL.
  intros k1. induction k1 as [|a k1 IH]; intros [|b k2]; simpl; auto.
  destruct (decide (a = b)) as [->|Hne].
  - destruct (IH k2); auto.
  - destruct (total cell_le a b); [left|right]; left; split; auto.
Qed.

End Orders.

(** ** Rows, columns and assignment *)

Section Tables.
Context {num : Type} `{HN : Numeric num}.
Implicit Types (df : DataFrame num) (r : list (cell num)) (c : string).

(** Every row holds one cell per column. *)
Definition aligned (df : DataFrame num) : Prop :=
  Forall (λ r, length r = length (columns df)) (data df).

Lemma cell_at_not_in cols r c : c ∉ cols → cell_at cols r c = NA.
Proof.
  revert r. induction cols as [|n cols IH]; intros [|x r] Hc; simpl; try done.
  apply not_elem_of_cons in Hc as [Hne Hc]. rewrite decide_False by done. auto.
Qed.

Lemma cell_at_app cols1 cols2 r1 r2 c :
  length r1 = length cols1 →
  cell_at (cols1 ++ cols2) (r1 ++ r2) c =
    if decide (c ∈ cols1) then cell_at cols1 r1 c else cell_at cols2 r2 c.
Proof.
  revert r1. induction cols1 as [|n cols1 IH]; intros [|x r1] Hlen; simplify_eq/=.
  - done.
  - destruct (decide (n = c)) as [->|Hne].
    + by rewrite decide_True by left.
    + rewrite IH by done. destruct (decide (c ∈ cols1)) as [Hin|Hnin].
      * by rewrite decide_True by (by right).
      * rewrite decide_False; [done|]. by intros [->|?]%elem_of_cons.
Qed.

Lemma cell_at_fmap (f : string → cell num) (l : list string) c :
  c ∈ l → cell_at l (f <$> l) c = f c.
Proof.
  induction l as [|n l IH]; simpl; [by intros ?%elem_of_nil|].
  intros [->|Hin]%elem_of_cons; case_decide; subst; auto. done.
Qed.

Lemma length_set_cell c v cols r :
  length r = length cols → length (set_cell c v cols r) = length cols.
Proof.
  revert r. induction cols as [|n cols IH]; intros [|x r] Hlen; simplify_eq/=; auto.
Qed.

Lemma cell_at_set_cell_ne c v cols r c' :
  c' ≠ c → cell_at cols (set_cell c v cols r) c' = cell_at cols r c'.
Proof.
  intros Hne. revert r. induction cols as [|n cols IH]; intros [|x r]; simpl; try done.
  destruct (decide (n = c')) as [->|]; [by rewrite decide_False|]. apply IH.
Qed.

Lemma cell_at_set_cell_eq c v cols r :
  c ∈ cols → length r = length cols → cell_at cols (set_cell c v cols r) c = v.
Proof.
  revert r. induction cols as [|n cols IH]; intros [|x r] Hin Hlen; simplify_eq/=.
  - by apply elem_of_nil in Hin.
  - destruct (decide (n = c)) as [->|Hne]; [done|].
    apply IH; [|done]. by apply elem_of_cons in Hin as [->|?].
Qed.

Lemma length_select_cells (P : string → Prop) `{∀ n, Decision (P n)} cols r :
  length r = length cols →
  length (select_cells (λ n, bool_decide (P n)) cols r) = length (filter P cols).
Proof.
  revert r. induction cols as [|n cols IH]; intros [|x r] Hlen; simplify_eq/=; [done|].
  rewrite filter_cons. case_bool_decide; rewrite ?decide_True, ?decide_False by done;
    simpl; auto.
Qed.

Lemma columns_assign c vals df :
  columns (assign c vals df) =
    if decide (c ∈ columns df) then columns df else columns df ++ [c].
Proof. unfold assign. by case_decide. Qed.

Lemma length_data_assign c vals df :
  length vals = length (data df) →
  length (data (assign c vals df)) = length (data df).
Proof.
  intros Hlen. unfold assign. case_decide; simpl; rewrite length_zip_with; lia.
Qed.

Lemma aligned_assign c vals df : aligned df → aligned (assign c vals df).
Proof.
  unfold aligned, assign. intros Hal.
  case_decide; simpl; revert vals;
    induction Hal as [|r rs Hr Hrs IH]; intros [|v vals]; simpl;
    constructor; auto.
  - by apply length_set_cell.
  - rewrite !length_app. simpl. lia.
Qed.

Lemma column_assign_eq c vals df :
  aligned df → length vals = length (data df) →
  column (assign c vals df) c = vals.
Proof.
  unfold aligned, column, assign. intros Hal.
  case_decide as Hin; simpl; revert vals;
    induction Hal as [|r rs Hr Hrs IH]; intros [|v vals] Hlen;
    simplify_eq/=; f_equal; auto.
  - by apply cell_at_set_cell_eq.
  - rewrite cell_at_app, decide_False by done. simpl. by rewrite decide_True.
Qed.

Lemma column_assign_ne c vals df c' :
  aligned df → length vals = length (data df) → c' ≠ c →
  column (assign c vals df) c' = column df c'.
Proof.
  unfold aligned, column, assign. intros Hal Hlen Hne. revert Hlen.
  case_decide as Hin; simpl; revert vals;
    induction Hal as [|r rs Hr Hrs IH]; intros [|v vals] Hlen;
    simplify_eq/=; f_equal; auto.
  - by apply cell_at_set_cell_ne.
  - rewrite cell_at_app by done. case_decide; [done|].
    simpl. rewrite decide_False by done.
    by rewrite cell_at_not_in.
Qed.

End Tables.

(** ** Column standardization *)

Section Standardize.
Context {num : Type} `{HN : Numeric num}.
Implicit Types (df u : DataFrame num) (r : list (cell num)) (c : string).

Lemma aligned_strip_columns df : aligned df → aligned (strip_columns df).
Proof. unfold aligned. simpl. by rewrite length_fmap. Qed.

Lemma aligned_drop c df : aligned df → aligned (drop c df).
Proof.
  unfold aligned, drop. simpl. intros Hal. apply Forall_fmap.
  eapply Forall_impl; [done|]. intros r Hr. simpl.
  by apply (length_select_cells (λ n, n ≠ c)).
Qed.

Lemma aligned_drop_unnamed df : aligned df → aligned (drop_unnamed df).
Proof.
  unfold drop_unnamed. destruct (columns df) as [|c cols] eqn:Hc; [done|].
  destruct (is_unnamed c); [apply aligned_drop|done].
Qed.

Lemma aligned_normalize_name old new df :
  aligned df → aligned (normalize_name old new df).
Proof.
  unfold normalize_name. case_decide; [|done].
  unfold aligned, rename. simpl. by rewrite length_fmap.
Qed.

Lemma aligned_before_coordinates df : aligned df → aligned (before_coordinates df).
Proof.
  intros. unfold before_coordinates.
  by do 2 apply aligned_normalize_name; apply aligned_drop_unnamed, aligned_strip_columns.
Qed.

Lemma aligned_extract_coordinates df : aligned df → aligned (extract_coordinates df).
Proof.
  intros. unfold extract_coordinates.
  repeat case_decide; repeat apply aligned_assign; done.
Qed.

Lemma aligned_add_total_capacity u : aligned u → aligned (add_total_capacity u).
Proof.
  intros. unfold add_total_capacity.
  destruct (cap_cols u); [done|]. by apply aligned_assign.
Qed.

Lemma aligned_before_total df : aligned df → aligned (before_total df).
Proof. intros. by apply aligned_extract_coordinates, aligned_before_coordinates. Qed.

Lemma aligned_standardize df : aligned df → aligned (_standardize_columns df).
Proof. intros. by apply aligned_add_total_capacity, aligned_before_total. Qed.

Lemma is_capacity_TOTAL : is_capacity TOTAL = true.
Proof. reflexivity. Qed.

Lemma column_add_total_ne u c :
  aligned u → c ≠ TOTAL → column (add_total_capacity u) c = column u c.
Proof.
  intros Hal Hne. unfold add_total_capacity.
  destruct (cap_cols u); [done|].
  apply column_assign_ne; [done| |done]. by rewrite length_fmap.
Qed.

Lemma columns_add_total u :
  columns (add_total_capacity u) =
    if decide (cap_cols u = []) then columns u
    else if decide (TOTAL ∈ columns u) then columns u else columns u ++ [TOTAL].
Proof.
  unfold add_total_capacity. destruct (cap_cols u) eqn:E; [done|].
  rewrite decide_False by done. apply columns_assign.
Qed.





(** *** Derived coordinates *)

Definition float_or_missing (v : cell num) : Prop :=
  match v with Str _ => False | _ => True end.

Lemma extract_float_or_missing (v : cell num) :
  float_or_missing (_extract_lat_lon v).1 ∧ float_or_missing (_extract_lat_lon v).2.
Proof.
  unfold _extract_lat_lon. destruct v as [|x|s]; cbn [isna]; try done.
  destruct (PyStr.contains "," s); [|done].
  destruct (PyStr.split "," s) as [|p0 [|p1 [|p2 ps]]]; try done.
  destruct (py_float (PyStr.strip p0)) as [[x|]|],
           (py_float (PyStr.strip p1)) as [[y|]|]; done.
Qed.

Lemma length_column df c : length (column df c) = length (data df).
Proof. unfold column. by rewrite length_fmap. Qed.

Lemma column_extract_latitude u :
  aligned u → "Coordinates" ∈ columns u → "latitude" ∉ columns u →
  column (extract_coordinates u) "latitude" =
    fst <$> (_extract_lat_lon <$> column u "Coordinates").
Proof.
  intros Hal Hc Hlat. unfold extract_coordinates.
  rewrite decide_True by auto. rewrite (decide_True (P:="latitude" ∉ columns u)) by done.
  assert (length (_extract_lat_lon <$> column u "Coordinates") = length (data u)) as Hlen
    by (by rewrite length_fmap, length_column).
  case_decide.
  - rewrite column_assign_ne.
    + apply column_assign_eq; [done|]. by rewrite length_fmap.
    + by apply aligned_assign.
    + rewrite length_data_assign; by rewrite length_fmap.
    + done.
  - apply column_assign_eq; [done|]. by rewrite length_fmap.
Qed.

Lemma column_extract_longitude u :
  aligned u → "Coordinates" ∈ columns u → "longitude" ∉ columns u →
  column (extract_coordinates u) "longitude" =
    snd <$> (_extract_lat_lon <$> column u "Coordinates").
Proof.
  intros Hal Hc Hlon. unfold extract_coordinates.
  rewrite decide_True by auto.
  assert (length (_extract_lat_lon <$> column u "Coordinates") = length (data u)) as Hlen
    by (by rewrite length_fmap, length_column).
  destruct (decide ("latitude" ∉ columns u)) as [Hlat|Hlat].
  - rewrite decide_True.
    + apply column_assign_eq; [by apply aligned_assign|].
      rewrite length_data_assign; by rewrite length_fmap.
    + rewrite columns_assign, decide_False by done.
      intros [?|[E|?%elem_of_nil]%elem_of_cons]%elem_of_app; done.
  - rewrite decide_True by done.
    apply column_assign_eq; [done|]. by rewrite length_fmap.
Qed.

Lemma column_extract_keeps u c :
  aligned u → c ∈ columns u →
  column (extract_coordinates u) c = column u c.
Proof.
  intros Hal Hc. unfold extract_coordinates. case_decide; [|done].
  assert (length (_extract_lat_lon <$> column u "Coordinates") = length (data u)) as Hlen
    by (by rewrite length_fmap, length_column).
  destruct (decide ("latitude" ∉ columns u)) as [Hlat|Hlat].
  - assert (column (assign "latitude" (fst <$> (_extract_lat_lon <$> column u "Coordinates")) u) c
            = column u c) as Hc1.
    { apply column_assign_ne; [done|by rewrite length_fmap|]. by intros ->. }
    case_decide as Hlon; [|done].
    rewrite column_assign_ne; [done|by apply aligned_assign| |].
    + rewrite length_data_assign; by rewrite length_fmap.
    + intros ->. apply Hlon. rewrite columns_assign, decide_False by done.
      apply elem_of_app. by left.
  - case_decide as Hlon; [|done].
    apply column_assign_ne; [done|by rewrite length_fmap|]. by intros ->.
Qed.

Lemma columns_extract u :
  columns (extract_coordinates u) =
    if decide ("Coordinates" ∈ columns u ∧
               ("latitude" ∉ columns u ∨ "longitude" ∉ columns u))
    then (columns u ++ if decide ("latitude" ∉ columns u) then ["latitude"] else [])
           ++ if decide ("longitude" ∉ columns u) then ["longitude"] else []
    else columns u.
Proof.
  unfold extract_coordinates. case_decide as Hc; [|done].
  destruct (decide ("latitude" ∉ columns u)) as [Hlat|Hlat].
  - assert (columns (assign "latitude" (_extract_lat_lon <$> column u "Coordinates").*1 u)
            = columns u ++ ["latitude"]) as Hcols
      by (by rewrite columns_assign, decide_False).
    rewrite Hcols.
    destruct (decide ("longitude" ∉ columns u)) as [Hlon|Hlon].
    + rewrite decide_True by set_solver.
      rewrite columns_assign, Hcols. rewrite decide_False; [done|set_solver].
    + rewrite decide_False by set_solver. by rewrite Hcols, app_nil_r.
  - destruct (decide ("longitude" ∉ columns u)) as [Hlon|Hlon].
    + by rewrite columns_assign, decide_False, app_nil_r.
    + by rewrite !app_nil_r.
Qed.

Lemma elem_of_columns_extract u c :
  c ∈ columns (extract_coordinates u) ↔
    c ∈ columns u ∨
    ("Coordinates" ∈ columns u ∧ (c = "latitude" ∨ c = "longitude")).
Proof.
  rewrite columns_extract.
  destruct (decide ("latitude" ∈ columns u)), (decide ("longitude" ∈ columns u));
    repeat case_decide; set_solver.
Qed.

Lemma elem_of_columns_add_total u c :
  c ∈ columns (add_total_capacity u) ↔
    c ∈ columns u ∨ (cap_cols u ≠ [] ∧ c = TOTAL).
Proof.
  rewrite columns_add_total. case_decide as Hcap; [naive_solver|].
  case_decide as Hin.
  - split; [auto|]. intros [?|[_ ->]]; done.
  - rewrite elem_of_app, list_elem_of_singleton. naive_solver.
Qed.

(** *** Renamed coordinates *)

Lemma elem_of_columns_normalize old new df c :
  c ∈ columns (normalize_name old new df) ↔
    if decide (old ∈ columns df ∧ new ∉ columns df)
    then (c ≠ old ∧ c ∈ columns df) ∨ c = new
    else c ∈ columns df.
Proof.
  unfold normalize_name. case_decide as Hd; [|done].
  destruct Hd as [Hold Hnew]. unfold rename. simpl.
  rewrite list_elem_of_fmap. split.
  - intros (n & -> & Hn). case_decide; subst; auto.
  - intros [[Hne Hc]| ->].
    + exists c. by rewrite decide_False.
    + exists old. by rewrite decide_True.
Qed.

Lemma normalize_name_other old new df c :
  c ≠ old → c ≠ new →
  c ∈ columns (normalize_name old new df) ↔ c ∈ columns df.
Proof.
  intros Ho Hn. rewrite elem_of_columns_normalize. case_decide; [|done].
  split; [by intros [[_ ?]|?]|auto].
Qed.

Lemma cell_at_rename_new old new cols r :
  new ∉ cols →
  cell_at ((λ n, if decide (n = old) then new else n) <$> cols) r new
    = cell_at cols r old.
Proof.
  revert r. induction cols as [|n cols IH]; intros [|x r] Hnew; try done.
  apply not_elem_of_cons in Hnew as [Hne Hnew]. rewrite fmap_cons. simpl.
  destruct (decide (n = old)) as [->|Hold].
  - by rewrite decide_True.
  - rewrite decide_False by done. by apply IH.
Qed.

Lemma cell_at_rename_other old new cols r c :
  c ≠ old → c ≠ new →
  cell_at ((λ n, if decide (n = old) then new else n) <$> cols) r c
    = cell_at cols r c.
Proof.
  intros Hold Hnew. revert r.
  induction cols as [|n cols IH]; intros [|x r]; try done.
  rewrite fmap_cons. simpl. destruct (decide (n = old)) as [->|Hn].
  - rewrite !decide_False by done. apply IH.
  - destruct (decide (n = c)); [done|apply IH].
Qed.

Lemma column_normalize_renamed old new df :
  old ∈ columns df → new ∉ columns df →
  column (normalize_name old new df) new = column df old.
Proof.
  intros Hold Hnew. unfold normalize_name. rewrite decide_True by done.
  unfold column, rename. simpl. apply list_fmap_ext. intros i r _.
  by apply cell_at_rename_new.
Qed.

Lemma column_normalize_other old new df c :
  c ≠ old → c ≠ new →
  column (normalize_name old new df) c = column df c.
Proof.
  intros Hold Hnew. unfold normalize_name. case_decide; [|done].
  unfold column, rename. simpl. apply list_fmap_ext. intros i r _.
  by apply cell_at_rename_other.
Qed.

(** C9 (amended): a [latitude] or [longitude] column that standardization
    derives from [Coordinates] holds, row by row, the parsed half of that
    row's coordinates, so each value is a float or missing and never a
    text; a column that was already there keeps its values, and a column
    obtained by renaming [Latitude]/[Longitude] holds the values of the
    renamed column as they were, texts included. *)
Theorem derived_coordinates_numeric (df : DataFrame num) :
  aligned df →
  ("Coordinates" ∈ columns (before_coordinates df) →
   "latitude" ∉ columns (before_coordinates df) →
     "latitude" ∈ columns (_standardize_columns df) ∧
     column (_standardize_columns df) "latitude" =
       fst <$> (_extract_lat_lon <$> column (before_coordinates df) "Coordinates") ∧
     Forall float_or_missing (column (_standardize_columns df) "latitude")) ∧
  ("Coordinates" ∈ columns (before_coordinates df) →
   "longitude" ∉ columns (before_coordinates df) →
     "longitude" ∈ columns (_standardize_columns df) ∧
     column (_standardize_columns df) "longitude" =
       snd <$> (_extract_lat_lon <$> column (before_coordinates df) "Coordinates") ∧
     Forall float_or_missing (column (_standardize_columns df) "longitude")) ∧
  (∀ c, c ∈ columns (before_coordinates df) → c ≠ TOTAL →
     column (_standardize_columns df) c = column (before_coordinates df) c) ∧
  ("Latitude" ∈ columns (drop_unnamed (strip_columns df)) →
   "latitude" ∉ columns (drop_unnamed (strip_columns df)) →
     column (_standardize_columns df) "latitude" =
       column (drop_unnamed (strip_columns df)) "Latitude") ∧
  ("Longitude" ∈ columns (drop_unnamed (strip_columns df)) →
   "longitude" ∉ columns (drop_unnamed (strip_columns df)) →
     column (_standardize_columns df) "longitude" =
       column (drop_unnamed (strip_columns df)) "Longitude").
Proof.
  intros Hal. pose proof (aligned_before_coordinates df Hal) as Hu.
  pose proof (aligned_extract_coordinates _ Hu) as He.
  assert (∀ c, c ∈ columns (before_coordinates df) → c ≠ TOTAL →
     column (_standardize_columns df) c = column (before_coordinates df) c) as Hkeep.
  { intros c Hc Hne. unfold _standardize_columns, before_total.
    by rewrite column_add_total_ne, column_extract_keeps. }
  split_and!.
  - intros Hc Hlat. unfold _standardize_columns, before_total.
    rewrite column_add_total_ne, column_extract_latitude by done.
    split_and!; [|done|].
    + apply elem_of_columns_add_total. left. apply elem_of_columns_extract. auto.
    + rewrite <- list_fmap_compose. apply Forall_fmap, Forall_true.
      intros v. apply extract_float_or_missing.
  - intros Hc Hlon. unfold _standardize_columns, before_total.
    rewrite column_add_total_ne, column_extract_longitude by done.
    split_and!; [|done|].
    + apply elem_of_columns_add_total. left. apply elem_of_columns_extract. auto.
    + rewrite <- list_fmap_compose. apply Forall_fmap, Forall_true.
      intros v. apply extract_float_or_missing.
  - done.
  - intros Hold Hnew. rewrite Hkeep; [|unfold before_coordinates|done].
    + unfold before_coordinates.
      rewrite column_normalize_other by done.
      by apply column_normalize_renamed.
    + apply normalize_name_other; [done..|].
      apply elem_of_columns_normalize. rewrite decide_True by done. by right.
  - intros Hold Hnew.
    assert ("Longitude" ∈ columns (normalize_name "Latitude" "latitude"
                                     (drop_unnamed (strip_columns df)))) as Hold'
      by (by apply normalize_name_other).
    assert ("longitude" ∉ columns (normalize_name "Latitude" "latitude"
                                     (drop_unnamed (strip_columns df)))) as Hnew'
      by (by rewrite normalize_name_other).
    rewrite Hkeep; [|unfold before_coordinates|done].
    + unfold before_coordinates.
      rewrite column_normalize_renamed by done.
      by apply column_normalize_other.
    + apply elem_of_columns_normalize. rewrite decide_True by done. by right.
Qed.

(** *** Standardizing a standardized table *)

Record standardized (u : DataFrame num) : Prop := {
  std_aligned : aligned u;
  std_stripped : Forall (λ c, PyStr.strip c = c) (columns u);
  std_lat : "Latitude" ∈ columns u → "latitude" ∈ columns u;
  std_lon : "Longitude" ∈ columns u → "longitude" ∈ columns u;
  std_coord : "Coordinates" ∈ columns u →
              "latitude" ∈ columns u ∧ "longitude" ∈ columns u;
  std_total : cap_cols u ≠ [] → TOTAL ∈ columns u
}.

Lemma stripped_drop_unnamed df :
  Forall (λ c, PyStr.strip c = c) (columns df) →
  Forall (λ c, PyStr.strip c = c) (columns (drop_unnamed df)).
Proof.
  intros Hall. unfold drop_unnamed.
  destruct (columns df) as [|c cols] eqn:Hc; [by rewrite Hc|].
  destruct (is_unnamed c); [|by rewrite Hc].
  unfold drop. simpl. rewrite Hc in *. apply Forall_forall.
  intros x [_ Hx]%list_elem_of_filter. rewrite Forall_forall in Hall. by apply Hall.
Qed.

Lemma stripped_normalize old new df :
  PyStr.strip new = new →
  Forall (λ c, PyStr.strip c = c) (columns df) →
  Forall (λ c, PyStr.strip c = c) (columns (normalize_name old new df)).
Proof.
  intros Hnew Hall. unfold normalize_name. case_decide; [|done].
  unfold rename. simpl. apply Forall_fmap. eapply Forall_impl; [done|].
  intros n Hn. simpl. by case_decide.
Qed.

Lemma normalize_name_done old new df :
  old ≠ new →
  old ∈ columns (normalize_name old new df) →
  new ∈ columns (normalize_name old new df).
Proof.
  intros Hne. rewrite !elem_of_columns_normalize.
  case_decide as Hd.
  - intros [[? _]| ->]; done.
  - intros Hold. destruct (decide (new ∈ columns df)); [done|]. destruct Hd. done.
Qed.

Lemma before_coordinates_latitude df :
  "Latitude" ∈ columns (before_coordinates df) →
  "latitude" ∈ columns (before_coordinates df).
Proof.
  unfold before_coordinates. rewrite !(normalize_name_other "Longitude") by done.
  by apply normalize_name_done.
Qed.

Lemma before_coordinates_longitude df :
  "Longitude" ∈ columns (before_coordinates df) →
  "longitude" ∈ columns (before_coordinates df).
Proof. unfold before_coordinates. by apply normalize_name_done. Qed.

Lemma stripped_before_coordinates df :
  Forall (λ c, PyStr.strip c = c) (columns (before_coordinates df)).
Proof.
  unfold before_coordinates.
  do 2 (apply stripped_normalize; [done|]). apply stripped_drop_unnamed.
  simpl. apply Forall_fmap, Forall_true. intros c. apply strip_idemp.
Qed.

Lemma elem_of_columns_standardize df c :
  c ∈ columns (_standardize_columns df) ↔
    (c ∈ columns (before_coordinates df) ∨
     ("Coordinates" ∈ columns (before_coordinates df) ∧
        (c = "latitude" ∨ c = "longitude"))) ∨
    (cap_cols (before_total df) ≠ [] ∧ c = TOTAL).
Proof.
  unfold _standardize_columns.
  rewrite elem_of_columns_add_total. unfold before_total at 1.
  by rewrite elem_of_columns_extract.
Qed.

Lemma standardize_standardized df :
  aligned df → standardized (_standardize_columns df).
Proof.
  intros Hal. split.
  - by apply aligned_standardize.
  - apply Forall_forall.
    intros c [[Hc|[_ [->| ->]]]|[_ ->]]%elem_of_columns_standardize; try done.
    revert c Hc. apply Forall_forall, stripped_before_coordinates.
  - intros [[Hc|[_ [?|?]]]|[_ ?]]%elem_of_columns_standardize; try done.
    apply elem_of_columns_standardize. left. left.
    by apply before_coordinates_latitude.
  - intros [[Hc|[_ [?|?]]]|[_ ?]]%elem_of_columns_standardize; try done.
    apply elem_of_columns_standardize. left. left.
    by apply before_coordinates_longitude.
  - intros [[Hc|[_ [?|?]]]|[_ ?]]%elem_of_columns_standardize; try done.
    split; apply elem_of_columns_standardize; left; right; auto.
  - intros Hcap. apply elem_of_columns_standardize.
    destruct (decide (cap_cols (before_total df) = [])) as [E|E]; [|auto].
    destruct Hcap. unfold _standardize_columns, add_total_capacity.
    by rewrite E.
Qed.

(** The first column, if any, is not one that [drop_unnamed] removes. *)
Definition leading_column_named (u : DataFrame num) : Prop :=
  match columns u with c :: _ => is_unnamed c = false | [] => True end.

Lemma before_total_fixed u :
  standardized u → leading_column_named u → before_total u = u.
Proof.
  intros [Hal Hstr Hlat Hlon Hcoord Htot] Hlead.
  assert (strip_columns u = u) as Hs.
  { destruct u as [cols rows]. unfold strip_columns. simpl in *. f_equal.
    clear -Hstr. induction Hstr as [|c cols Hc Hcols IH]; [done|].
    rewrite fmap_cons. by f_equal. }
  assert (drop_unnamed u = u) as Hd.
  { unfold drop_unnamed, leading_column_named in *.
    destruct (columns u) as [|c cols]; [done|]. by rewrite Hlead. }
  unfold before_total, before_coordinates. rewrite Hs, Hd.
  unfold normalize_name.
  rewrite (decide_False (P:="Latitude" ∈ columns u ∧ "latitude" ∉ columns u))
    by (intros [? ?]; auto).
  rewrite decide_False by (intros [? ?]; auto).
  unfold extract_coordinates.
  rewrite decide_False; [done|]. intros [Hc [?|?]]; destruct (Hcoord Hc); done.
Qed.

(** C2 (amended): provided the first column of a standardized table is
    not itself empty or "unnamed" (it would be dropped), standardizing
    it again renames nothing, drops nothing and derives no coordinate
    column: the column labels and the row count stay the same, every
    column other than [Total capacity (ttpa)] keeps its values, and a
    table without capacity-like columns is returned unchanged. *)
Theorem standardize_twice (df : DataFrame num) :
  aligned df →
  leading_column_named (_standardize_columns df) →
  columns (_standardize_columns (_standardize_columns df)) =
    columns (_standardize_columns df) ∧
  length (data (_standardize_columns (_standardize_columns df))) =
    length (data (_standardize_columns df)) ∧
  (∀ c, c ≠ TOTAL →
     column (_standardize_columns (_standardize_columns df)) c =
       column (_standardize_columns df) c) ∧
  (cap_cols (_standardize_columns df) = [] →
     _standardize_columns (_standardize_columns df) = _standardize_columns df).
Proof.
  intros Hal Hlead.
  pose proof (standardize_standardized df Hal) as Hstd.
  set (u := _standardize_columns df) in *.
  assert (_standardize_columns u = add_total_capacity u) as ->
    by (unfold _standardize_columns; by rewrite before_total_fixed).
  destruct Hstd as [Hu _ _ _ _ Htot]. split_and!.
  - rewrite columns_add_total. case_decide as Hcap; [done|].
    by rewrite decide_True by auto.
  - unfold add_total_capacity. destruct (cap_cols u); [done|].
    rewrite length_data_assign; by rewrite ?length_fmap.
  - intros c Hc. by apply column_add_total_ne.
  - intros Hcap. unfold add_total_capacity. by rewrite Hcap.
Qed.

End Standardize.

(** ** Duplicate aggregation *)

Section ResultMonad.
Context {A B : Type} (f : A → result B).

Lemma mapM_cons x l :
  mapM f (x :: l) =
    match f x with
    | Ok y => match mapM f l with Ok ys => Ok (y :: ys) | Raise e => Raise e end
    | Raise e => Raise e
    end.
Proof. reflexivity. Qed.

Lemma mapM_Ok l k : mapM f l = Ok k → Forall2 (λ x y, f x = Ok y) l k.
Proof.
  revert k. induction l as [|x l IH]; intros k.
  - intros [= <-]. constructor.
  - rewrite mapM_cons. destruct (f x) as [y|] eqn:Hx; [|done].
    destruct (mapM f l) as [ys|]; [|done]. intros [= <-]. constructor; auto.
Qed.



End ResultMonad.

Section Aggregate.
Context {num : Type} `{HN : Numeric num}.
Implicit Types (df : DataFrame num) (r k : list (cell num)) (c : string).
Implicit Types (d : list (string * aggfn)).

(** *** The grouping key *)

(** C5: the grouping key is [Plant ID] when the table has that column;
    otherwise the columns among name, owner, latitude, longitude and
    country that the table has, in that order; otherwise the first
    column of the table (and key selection fails on a table without
    columns).  [_aggregate_duplicates] groups by that key. *)
Theorem grouping_key_priority (cols : list string) :
  ("Plant ID" ∈ cols → grouping_key cols = Ok ["Plant ID"]) ∧
  ("Plant ID" ∉ cols → filter (λ c, c ∈ cols) KEY_FIELDS ≠ [] →
     grouping_key cols = Ok (filter (λ c, c ∈ cols) KEY_FIELDS)) ∧
  (∀ c, c ∈ filter (λ c, c ∈ cols) KEY_FIELDS ↔
        c ∈ ["Plant name (English)"; "Owner"; "latitude"; "longitude"; "Country/Area"]
        ∧ c ∈ cols) ∧
  ("Plant ID" ∉ cols → filter (λ c, c ∈ cols) KEY_FIELDS = [] →
     grouping_key cols = match cols with c :: _ => Ok [c] | [] => Raise IndexError end) ∧
  (∀ (df : DataFrame num) key, columns df = cols → grouping_key cols = Ok key →
     _aggregate_duplicates df = groupby_agg df key (agg_spec cols key)).
Proof.
  unfold grouping_key. split_and!.
  - intros Hid. by rewrite decide_True.
  - intros Hid Hf. rewrite decide_False by done.
    by destruct (filter (λ c, c ∈ cols) KEY_FIELDS).
  - intros c. rewrite list_elem_of_filter. unfold KEY_FIELDS. tauto.
  - intros Hid Hf. rewrite decide_False by done. by rewrite Hf.
  - intros df key Hcols Hkey. unfold _aggregate_duplicates, grouping_key.
    rewrite Hcols, Hkey. done.
Qed.

Lemma grouping_key_NoDup cols key : grouping_key cols = Ok key → NoDup key.
Proof.
  unfold grouping_key. case_decide.
  - intros [= <-]. apply NoDup_singleton.
  - destruct (filter (λ c, c ∈ cols) KEY_FIELDS) as [|c0 l] eqn:E.
    + destruct cols; [done|]. intros [= <-]. apply NoDup_singleton.
    + intros [= <-]. rewrite <- E. apply NoDup_filter.
      apply (bool_decide_unpack _). by vm_compute.
Qed.

(** *** The aggregation dictionary *)

Lemma dict_get_None d c : c ∉ d.*1 → dict_get d c = None.
Proof.
  induction d as [|[n f] d IH]; simpl; [done|].
  intros [? ?]%not_elem_of_cons. rewrite decide_False by done. auto.
Qed.

Lemma dict_get_replace_ne d c f c' :
  c' ≠ c →
  dict_get ((λ p, if decide (p.1 = c) then (c, f) else p) <$> d) c' = dict_get d c'.
Proof.
  intros Hne. induction d as [|[n g] d IH]; [done|].
  rewrite fmap_cons. simpl. destruct (decide (n = c)) as [->|Hn]; simpl.
  - by rewrite !decide_False by done.
  - by rewrite IH.
Qed.

Lemma dict_get_replace_eq d c f :
  c ∈ d.*1 →
  dict_get ((λ p, if decide (p.1 = c) then (c, f) else p) <$> d) c = Some f.
Proof.
  induction d as [|[n g] d IH]; [by intros ?%elem_of_nil|].
  rewrite !fmap_cons. simpl. intros Hin.
  destruct (decide (n = c)) as [->|Hn]; simpl.
  - by rewrite decide_True.
  - rewrite decide_False by done. apply IH.
    by apply elem_of_cons in Hin as [?|?].
Qed.

Lemma dict_get_app d c f c' :
  dict_get (d ++ [(c, f)]) c' =
    match dict_get d c' with
    | Some g => Some g
    | None => if decide (c = c') then Some f else None
    end.
Proof.
  induction d as [|[n g] d IH]; simpl; [done|].
  destruct (decide (n = c')); [done|apply IH].
Qed.

Lemma dict_get_set d c f c' :
  dict_get (dict_set c f d) c' = if decide (c' = c) then Some f else dict_get d c'.
Proof.
  unfold dict_set. destruct (decide (c ∈ d.*1)) as [Hin|Hin].
  - destruct (decide (c' = c)) as [->|Hne].
    + by apply dict_get_replace_eq.
    + by apply dict_get_replace_ne.
  - rewrite dict_get_app. destruct (decide (c' = c)) as [->|Hne].
    + by rewrite dict_get_None, decide_True.
    + rewrite decide_False by done. by destruct (dict_get d c').
Qed.

Lemma dict_get_set_all d f l c :
  dict_get (foldl (λ d c, dict_set c f d) d l) c =
    if decide (c ∈ l) then Some f else dict_get d c.
Proof.
  revert d. induction l as [|n l IH]; intros d; simpl; [done|].
  rewrite IH, dict_get_set.
  destruct (decide (c ∈ l)) as [?|Hl].
  - by rewrite decide_True by (by right).
  - destruct (decide (c = n)) as [->|?].
    + by rewrite decide_True by left.
    + rewrite decide_False; [done|]. by intros [?|?]%elem_of_cons.
Qed.

Lemma dict_get_first_fields d l c :
  dict_get d c = Some AggFirst →
  dict_get (foldl (λ d c, if decide (c ∈ d.*1) then dict_set c AggFirst d else d) d l) c
    = Some AggFirst.
Proof.
  revert d. induction l as [|n l IH]; intros d Hd; simpl; [done|].
  apply IH. case_decide; [|done]. rewrite dict_get_set. by case_decide.
Qed.

(** A column outside the key, the capacity family and [Workforce size]
    is aggregated with ["first"]. *)
Lemma agg_spec_first cols key c :
  c ∈ cols → c ∉ key → is_capacity c = false → c ≠ "Workforce size" →
  dict_get (agg_spec cols key) c = Some AggFirst.
Proof.
  intros Hc Hk Hcap Hw. unfold agg_spec. apply dict_get_first_fields.
  assert (dict_get (foldl (λ d c, dict_set c AggSum d)
            (foldl (λ d c, dict_set c AggFirst d) [] (filter (λ c, c ∉ key) cols))
            (numeric_sum cols)) c = Some AggFirst) as Hget.
  { rewrite dict_get_set_all, decide_False.
    - rewrite dict_get_set_all, decide_True; [done|].
      by apply list_elem_of_filter.
    - unfold numeric_sum. intros [Ht|Hf]%elem_of_app.
      + case_decide; [|by apply elem_of_nil in Ht].
        apply list_elem_of_singleton in Ht as ->. by rewrite is_capacity_TOTAL in Hcap.
      + apply list_elem_of_filter in Hf as [[? _] _]. congruence. }
  case_decide; [|done]. by rewrite dict_get_set, decide_False.
Qed.

(** *** Groups and aggregated columns *)

Lemma length_key_of cols key r : length (key_of cols key r) = length key.
Proof. unfold key_of. by rewrite length_fmap. Qed.

Lemma elem_of_group_keys df key k :
  k ∈ group_keys df key ↔ ∃ r, r ∈ data df ∧ key_of (columns df) key r = k.
Proof.
  unfold group_keys. rewrite merge_sort_Permutation, elem_of_remove_dups.
  rewrite list_elem_of_fmap. naive_solver.
Qed.

Lemma NoDup_group_keys df key : NoDup (group_keys df key).
Proof.
  unfold group_keys. rewrite merge_sort_Permutation. apply NoDup_remove_dups.
Qed.

Lemma dict_get_Some_elem_of d c f : dict_get d c = Some f → c ∈ d.*1.
Proof.
  intros Hget. destruct (decide (c ∈ d.*1)) as [|Hn]; [done|].
  by rewrite dict_get_None in Hget.
Qed.

Lemma agg_values_lookup (g : string → list (cell num)) d vals c f :
  Forall2 (λ p v, agg_apply p.2 (g p.1) = Ok v) d vals →
  dict_get d c = Some f →
  agg_apply f (g c) = Ok (cell_at d.*1 vals c).
Proof.
  induction 1 as [|[n f0] v d vals Hv Hrest IH]; simpl; [done|].
  destruct (decide (n = c)) as [->|Hne]; [|done].
  by intros [= <-].
Qed.

Lemma agg_row_cell df key d k row c f :
  agg_row df key d k = Ok row → dict_get d c = Some f →
  agg_apply f (group_values df key k c) = Ok (cell_at (out_keys key d ++ d.*1) row c).
Proof.
  unfold agg_row. intros Hrow Hget.
  destruct (mapM _ d) as [vals|] eqn:Hvals; [|done].
  injection Hrow as <-. apply mapM_Ok in Hvals.
  rewrite cell_at_app by (by rewrite length_fmap).
  rewrite decide_False.
  - by apply (agg_values_lookup (group_values df key k)).
  - unfold out_keys. intros [Hn _]%list_elem_of_filter.
    by apply Hn, (dict_get_Some_elem_of _ _ f).
Qed.

Lemma groupby_agg_rows df key d out :
  groupby_agg df key d = Ok out →
  columns out = out_keys key d ++ d.*1 ∧
  Forall2 (λ k row, agg_row df key d k = Ok row) (group_keys df key) (data out).
Proof.
  unfold groupby_agg. destruct (mapM _ (group_keys df key)) as [rows|] eqn:Hrows; [|done].
  intros [= <-]. split; [done|]. by apply mapM_Ok.
Qed.

Lemma groupby_agg_column df key d out c f :
  groupby_agg df key d = Ok out → dict_get d c = Some f →
  Forall2 (λ k v, agg_apply f (group_values df key k c) = Ok v)
          (group_keys df key) (column out c).
Proof.
  intros [Hcols Hrows]%groupby_agg_rows Hget. unfold column.
  apply Forall2_fmap_r. eapply Forall2_impl; [done|].
  intros k row Hrow. simpl. rewrite Hcols. by eapply agg_row_cell.
Qed.

Lemma first_valid_cons (v : cell num) vs :
  first_valid (v :: vs) = if decide (v = NA) then first_valid vs else v.
Proof.
  unfold first_valid. rewrite filter_cons.
  destruct (decide (v = NA)) as [->|Hv].
  - by rewrite decide_False by (by intros ?).
  - by rewrite decide_True.
Qed.

Lemma first_valid_NA (vs : list (cell num)) :
  first_valid vs = NA ↔ Forall (λ v, v = NA) vs.
Proof.
  induction vs as [|v vs IH]; [done|].
  rewrite first_valid_cons, Forall_cons. case_decide; [tauto|]. tauto.
Qed.

(** C4 (amended): for every group and every column outside the key, the
    capacity family and [Workforce size] (name, owner, address, country,
    region, coordinates, dates, latitude and longitude among them), the
    output row carries the first value of the group, in input row order,
    that is not missing, and a missing value when the group has none; it
    is the first row's value whenever that value is not missing. *)
Theorem first_wins_skips_missing (df : DataFrame num) key out c :
  grouping_key (columns df) = Ok key →
  _aggregate_duplicates df = Ok out →
  c ∈ columns df → c ∉ key → is_capacity c = false → c ≠ "Workforce size" →
  column out c =
    (λ k, first_valid (group_values df key k c)) <$> group_keys df key ∧
  (∀ (v : cell num) vs, v ≠ NA → first_valid (v :: vs) = v) ∧
  (∀ vs : list (cell num), first_valid (NA :: vs) = first_valid vs) ∧
  (∀ vs : list (cell num), first_valid vs = NA ↔ Forall (λ v, v = NA) vs) ∧
  Forall (λ c, is_capacity c = false ∧ c ≠ "Workforce size") FIRST_FIELDS.
Proof.
  intros Hkey Hagg Hc Hk Hcap Hw. split_and!.
  - unfold _aggregate_duplicates in Hagg. rewrite Hkey in Hagg. simpl in Hagg.
    pose proof (groupby_agg_column _ _ _ _ c AggFirst Hagg
                  (agg_spec_first _ _ _ Hc Hk Hcap Hw)) as Hcol.
    symmetry. apply list_eq_Forall2, Forall2_fmap_l.
    eapply Forall2_impl; [done|]. simpl. by intros k v [= ->].
  - intros v vs Hv. by rewrite first_valid_cons, decide_False.
  - intros vs. by rewrite first_valid_cons, decide_True.
  - apply first_valid_NA.
  - unfold FIRST_FIELDS. repeat constructor; by vm_compute.
Qed.

(** *** Groups partition the rows *)





(** *** Key columns of the output *)

Lemma elem_of_dict_keys d c : c ∈ d.*1 ↔ is_Some (dict_get d c).
Proof.
  split.
  - induction d as [|[n f] d IH]; simpl; [by intros ?%elem_of_nil|].
    intros Hin. destruct (decide (n = c)); [eauto|].
    apply IH. by apply elem_of_cons in Hin as [?|?].
  - intros [f Hf]. by eapply dict_get_Some_elem_of.
Qed.

Lemma first_fields_keys d l c :
  c ∈ (foldl (λ d c, if decide (c ∈ d.*1) then dict_set c AggFirst d else d) d l).*1
  ↔ c ∈ d.*1.
Proof.
  revert d. induction l as [|n l IH]; intros d; simpl; [done|].
  rewrite IH. case_decide as Hn; [|done].
  rewrite !elem_of_dict_keys, dict_get_set.
  case_decide; [|done]. subst. apply elem_of_dict_keys in Hn. by split.
Qed.

Lemma elem_of_agg_spec cols key n :
  n ∈ (agg_spec cols key).*1 →
  (n ∈ cols ∧ n ∉ key) ∨ is_capacity n = true ∨ n = "Workforce size".
Proof.
  unfold agg_spec. rewrite first_fields_keys.
  assert (n ∈ (foldl (λ d c, dict_set c AggSum d)
            (foldl (λ d c, dict_set c AggFirst d) [] (filter (λ c, c ∉ key) cols))
            (numeric_sum cols)).*1 →
          (n ∈ cols ∧ n ∉ key) ∨ is_capacity n = true) as Hsum.
  { rewrite elem_of_dict_keys, !dict_get_set_all.
    destruct (decide (n ∈ numeric_sum cols)) as [Hs|_].
    - intros _. right. unfold numeric_sum in Hs.
      apply elem_of_app in Hs as [Ht|Hf].
      + case_decide; [|by apply elem_of_nil in Ht].
        by apply list_elem_of_singleton in Ht as ->.
      + by apply list_elem_of_filter in Hf as [[? _] _].
    - destruct (decide (n ∈ filter (λ c, c ∉ key) cols)) as [Hf|_].
      + intros _. left. apply list_elem_of_filter in Hf. tauto.
      + by intros [? ?]. }
  case_decide; [|by intros []%Hsum; auto].
  rewrite elem_of_dict_keys, dict_get_set. case_decide; [by auto|].
  rewrite <- elem_of_dict_keys. by intros []%Hsum; auto.
Qed.

(** No aggregation touches a key column that is neither capacity-like
    nor [Workforce size]. *)
Definition plain_key (key : list string) : Prop :=
  Forall (λ n, is_capacity n = false ∧ n ≠ "Workforce size") key.

Lemma filter_all {A} (P : A → Prop) `{∀ x, Decision (P x)} (l : list A) :
  Forall P l → filter P l = l.
Proof.
  induction 1 as [|x l Hx Hl IH]; [done|]. by rewrite filter_cons_True, IH.
Qed.

Lemma out_keys_plain cols key :
  plain_key key → out_keys key (agg_spec cols key) = key.
Proof.
  intros Hplain. unfold out_keys. apply filter_all.
  unfold plain_key in Hplain. rewrite Forall_forall in *.
  intros n Hn [[_ ?]|[Hcap| ->]]%elem_of_agg_spec; [done|..];
    destruct (Hplain _ Hn) as [Hc Hw]; congruence.
Qed.

Lemma key_of_aggregated_row cols key r (names : list string) (vals : list (cell num)) :
  key_of (key ++ names) key ((cell_at key (key_of cols key r) <$> key) ++ vals)
    = key_of cols key r.
Proof.
  unfold key_of. apply list_fmap_ext. intros i n Hn.
  apply list_elem_of_lookup_2 in Hn.
  rewrite cell_at_app by (by rewrite !length_fmap).
  rewrite decide_True by done. by rewrite !cell_at_fmap.
Qed.

Lemma agg_row_key_tuple df key r row :
  plain_key key →
  agg_row df key (agg_spec (columns df) key) (key_of (columns df) key r) = Ok row →
  key_of (key ++ (agg_spec (columns df) key).*1) key row = key_of (columns df) key r.
Proof.
  intros Hplain. unfold agg_row.
  destruct (mapM _ (agg_spec (columns df) key)) as [vals|]; [|done].
  rewrite out_keys_plain by done. intros [= <-].
  apply key_of_aggregated_row.
Qed.

Lemma output_key_tuples df key out :
  plain_key key →
  groupby_agg df key (agg_spec (columns df) key) = Ok out →
  key_of (columns out) key <$> data out = group_keys df key.
Proof.
  intros Hplain [Hcols Hrows]%groupby_agg_rows.
  rewrite Hcols, out_keys_plain by done.
  assert (Forall (λ k, ∃ r, key_of (columns df) key r = k) (group_keys df key)) as Hsrc.
  { apply Forall_forall. intros k (r & _ & Hr)%elem_of_group_keys. eauto. }
  revert Hrows Hsrc. generalize (group_keys df key) (data out). intros ks rows Hrows.
  induction Hrows as [|k row ks rows Hrow Hrest IH]; [done|].
  intros [[r <-] Hks]%Forall_cons. rewrite fmap_cons. f_equal; [|by apply IH].
  by apply agg_row_key_tuple.
Qed.



Lemma aggregate_with_key df key out :
  grouping_key (columns df) = Ok key → _aggregate_duplicates df = Ok out →
  groupby_agg df key (agg_spec (columns df) key) = Ok out.
Proof. unfold _aggregate_duplicates. by intros ->. Qed.

Lemma output_length df key d out :
  groupby_agg df key d = Ok out → length (data out) = length (group_keys df key).
Proof.
  intros [_ Hrows]%groupby_agg_rows. symmetry. by eapply Forall2_length.
Qed.


(** *** Sums of the capacity family *)

Lemma dict_get_first_fields_other d l c :
  c ∉ l →
  dict_get (foldl (λ d c, if decide (c ∈ d.*1) then dict_set c AggFirst d else d) d l) c
    = dict_get d c.
Proof.
  revert d. induction l as [|n l IH]; intros d; simpl; [done|].
  intros [Hne Hl]%not_elem_of_cons. rewrite IH by done.
  case_decide; [|done]. by rewrite dict_get_set, decide_False.
Qed.

Lemma agg_spec_sum cols key c :
  c ∈ cols → is_capacity c = true →
  dict_get (agg_spec cols key) c = Some AggSum.
Proof.
  intros Hc Hcap. unfold agg_spec. rewrite dict_get_first_fields_other.
  - assert (dict_get (foldl (λ d c, dict_set c AggSum d)
              (foldl (λ d c, dict_set c AggFirst d) [] (filter (λ c, c ∉ key) cols))
              (numeric_sum cols)) c = Some AggSum) as Hsum.
    { rewrite dict_get_set_all, decide_True; [done|]. unfold numeric_sum.
      apply elem_of_app. destruct (decide (c = TOTAL)) as [->|Hne].
      - left. rewrite decide_True by done. by left.
      - right. by apply list_elem_of_filter. }
    case_decide; [|done]. rewrite dict_get_set, decide_False; [done|].
    intros ->. by vm_compute in Hcap.
  - intros Hin.
    assert (Forall (λ n, is_capacity n = false) FIRST_FIELDS) as Hfirst
      by (unfold FIRST_FIELDS; repeat constructor; by vm_compute).
    rewrite Forall_forall in Hfirst. specialize (Hfirst _ Hin). congruence.
Qed.

Lemma agg_sum_numbers (vs : list (cell num)) :
  texts vs = [] → agg_sum vs = Ok (Num (sum_nums (nums vs))).
Proof. unfold agg_sum. by intros ->. Qed.



End Aggregate.

(** ** The order of the output rows *)

Section KeyOrder.
Context {num : Type} `{HN : Numeric num} {HL : NumericLaws num}.
Implicit Types (df : DataFrame num) (k : list (cell num)).

Lemma group_keys_sorted df key : StronglySorted tuple_le (group_keys df key).
Proof using HL. unfold group_keys. apply StronglySorted_merge_sort; apply _. Qed.

Lemma sorted_distinct_strict {A} (R : relation A) (l : list A) :
  StronglySorted R l → NoDup l → StronglySorted (λ x y, R x y ∧ x ≠ y) l.
Proof.
  induction 1 as [|x l Hl IH Hx]; intros Hnd; constructor.
  - apply IH. by apply NoDup_cons in Hnd as [_ ?].
  - apply NoDup_cons in Hnd as [Hx' _]. apply Forall_forall.
    intros y Hy. split; [by eapply Forall_forall in Hx|]. by intros ->.
Qed.

Lemma group_keys_permutation df df' key :
  columns df' = columns df → data df' ≡ₚ data df →
  group_keys df' key = group_keys df key.
Proof using HL.
  intros Hcols Hdata.
  apply (StronglySorted_unique tuple_le); [apply group_keys_sorted..|].
  unfold group_keys. rewrite !merge_sort_Permutation.
  apply NoDup_Permutation; [apply NoDup_remove_dups..|].
  intros k. by rewrite !elem_of_remove_dups, Hcols, Hdata.
Qed.

Lemma group_rows_permutation df df' key k :
  columns df' = columns df → data df' ≡ₚ data df →
  group_rows df' key k ≡ₚ group_rows df key k.
Proof. intros Hcols Hdata. unfold group_rows. by rewrite Hcols, Hdata. Qed.

(** C10: the output rows follow the ascending order of the group keys
    (column by column: numbers, then texts, missing last), each key
    strictly above the one before; so reordering the input rows leaves
    the list of groups, and with it the order of the output rows,
    unchanged, and only reorders the rows inside each group. *)
Theorem output_rows_in_key_order (df : DataFrame num) key out :
  grouping_key (columns df) = Ok key →
  _aggregate_duplicates df = Ok out →
  StronglySorted tuple_le (group_keys df key) ∧
  StronglySorted (λ k1 k2, tuple_le k1 k2 ∧ k1 ≠ k2) (group_keys df key) ∧
  (∀ a b : cell num, tuple_le [a] [b] ↔ cell_le a b) ∧
  Forall2 (λ k row, agg_row df key (agg_spec (columns df) key) k = Ok row)
          (group_keys df key) (data out) ∧
  (plain_key key → key_of (columns out) key <$> data out = group_keys df key) ∧
  (∀ df' out', columns df' = columns df → data df' ≡ₚ data df →
     _aggregate_duplicates df' = Ok out' →
     group_keys df' key = group_keys df key ∧
     (∀ k, group_rows df' key k ≡ₚ group_rows df key k) ∧
     length (data out') = length (data out) ∧
     (plain_key key →
        key_of (columns out') key <$> data out' =
        key_of (columns out) key <$> data out)).
Proof using HL.
  intros Hkey Hagg.
  pose proof (aggregate_with_key df key out Hkey Hagg) as Hgroup.
  split_and!.
  - apply group_keys_sorted.
  - apply sorted_distinct_strict; [apply group_keys_sorted|apply NoDup_group_keys].
  - intros a b. simpl. split.
    + intros [[? _]|[-> _]]; [done|]. reflexivity.
    + intros Hab. destruct (decide (a = b)); [by right|by left].
  - by apply groupby_agg_rows in Hgroup as [_ Hrows].
  - intros Hplain. by apply output_key_tuples.
  - intros df' out' Hcols Hdata Hagg'.
    assert (grouping_key (columns df') = Ok key) as Hkey' by (by rewrite Hcols).
    pose proof (aggregate_with_key df' key out' Hkey' Hagg') as Hgroup'.
    pose proof (group_keys_permutation df df' key Hcols Hdata) as Hsame.
    split_and!.
    + done.
    + intros k. by apply group_rows_permutation.
    + by rewrite (output_length _ _ _ _ Hgroup), (output_length _ _ _ _ Hgroup'), Hsame.
    + intros Hplain.
      by rewrite (output_key_tuples df key out), (output_key_tuples df' key out'), Hsame.
Qed.

End KeyOrder.

(** ** Loading *)

Section Loading.
Context {num : Type} `{HN : Numeric num}.
Implicit Types (df : DataFrame num).






(** *** When aggregation returns *)

Definition is_text (v : cell num) : Prop :=
  match v with Str _ => True | _ => False end.
Definition is_number (v : cell num) : Prop :=
  match v with Num _ => True | _ => False end.



Lemma texts_nil (vs : list (cell num)) : Forall (λ v, ¬ is_text v) vs → texts vs = [].
Proof.
  unfold texts. induction 1 as [|v vs Hv Hvs IH]; [done|].
  destruct v; simpl in *; done.
Qed.

Lemma nums_nil (vs : list (cell num)) : Forall (λ v, ¬ is_number v) vs → nums vs = [].
Proof.
  unfold nums. induction 1 as [|v vs Hv Hvs IH]; [done|].
  destruct v; simpl in *; done.
Qed.




Lemma group_values_Forall df key k c (P : cell num → Prop) :
  Forall P (column df c) → Forall P (group_values df key k c).
Proof.
  unfold column, group_values, group_rows. rewrite !Forall_fmap, !Forall_forall.
  intros Hall r [_ Hr]%list_elem_of_filter. by apply Hall.
Qed.








End Loading.

(** ** Workforce size: the maximum of the group *)

Section WorkforceMax.
Context {num : Type} `{HN : Numeric num} {HL : NumericLaws num}.
Implicit Types (df : DataFrame num) (vs : list (cell num)).

Lemma num_max_fold_spec (x : num) (xs : list num) :
  foldl num_max x xs ∈ x :: xs ∧ ∀ y, y ∈ x :: xs → num_le y (foldl num_max x xs).
Proof using HL.
  revert x. induction xs as [|z xs IH]; intros x; simpl.
  - split; [by left|]. intros y ->%list_elem_of_singleton. reflexivity.
  - destruct (IH (num_max x z)) as [Hin Hub]. unfold num_max in *.
    destruct (decide (num_le x z)) as [Hxz|Hxz].
    + split; [by right|]. intros y [->|Hy]%elem_of_cons.
      * etrans; [done|]. apply Hub. by left.
      * by apply Hub.
    + assert (num_le z x) as Hzx by (by destruct (total num_le x z)).
      split.
      * apply elem_of_cons in Hin as [->|Hin]; [by left|by do 2 right].
      * intros y [->|[->|Hy]%elem_of_cons]%elem_of_cons.
        -- apply Hub. by left.
        -- etrans; [done|]. apply Hub. by left.
        -- apply Hub. by right.
Qed.

(** What ["max"] returns on values that hold no text. *)
Definition is_max_of (vs : list (cell num)) (v : cell num) : Prop :=
  (nums vs = [] ∧ v = NA) ∨
  (∃ m, v = Num m ∧ m ∈ nums vs ∧ ∀ x, x ∈ nums vs → num_le x m).

Lemma agg_max_numbers vs v :
  texts vs = [] → agg_max vs = Ok v → is_max_of vs v.
Proof using HL.
  unfold agg_max, is_max_of. intros ->. destruct (nums vs) as [|x xs]; intros [= <-].
  - by left.
  - right. exists (foldl num_max x xs). split; [done|]. apply num_max_fold_spec.
Qed.

Lemma agg_spec_max cols key :
  "Workforce size" ∈ cols →
  dict_get (agg_spec cols key) "Workforce size" = Some AggMax.
Proof.
  intros Hw. unfold agg_spec. rewrite dict_get_first_fields_other.
  - rewrite decide_True by done. by rewrite dict_get_set, decide_True.
  - apply (bool_decide_unpack _). by vm_compute.
Qed.

Lemma nums_nil_iff vs : nums vs = [] ↔ Forall (λ c, ¬ is_number c) vs.
Proof.
  split; [|apply nums_nil]. unfold nums.
  induction vs as [|c vs IH]; [constructor|].
  destruct c; simpl; try done; intros Hn; constructor; auto.
Qed.

(** In every group the aggregated [Workforce size] is the largest of the
    group's numbers, missing values left aside, and it is missing
    exactly when the group has no number; this needs a column without
    text. *)
Theorem workforce_group_max (df : DataFrame num) key out :
  grouping_key (columns df) = Ok key →
  _aggregate_duplicates df = Ok out →
  "Workforce size" ∈ columns df →
  Forall (λ c, ¬ is_text c) (column df "Workforce size") →
  Forall2 (λ k v, is_max_of (group_values df key k "Workforce size") v)
          (group_keys df key) (column out "Workforce size") ∧
  (∀ vs v, is_max_of vs v → (v = NA ↔ Forall (λ c, ¬ is_number c) vs)).
Proof using HL.
  intros Hkey Hagg Hw Htext.
  pose proof (aggregate_with_key df key out Hkey Hagg) as Hgroup.
  split.
  - eapply Forall2_impl;
      [exact (groupby_agg_column df key _ out _ AggMax Hgroup
                (agg_spec_max (columns df) key Hw))|].
    intros k v Hv. apply agg_max_numbers; [|done].
    by apply texts_nil, group_values_Forall.
  - intros vs v [[Hn ->]|(m & -> & Hm & _)]; rewrite <- nums_nil_iff.
    + done.
    + split; [done|]. intros Hn. rewrite Hn in Hm. by apply elem_of_nil in Hm.
Qed.

End WorkforceMax.

(** ** The shape of the aggregated table *)

Section AggregateShape.
Context {num : Type} `{HN : Numeric num}.
Implicit Types (df : DataFrame num) (r : list (cell num)) (c : string).
Implicit Types (d : list (string * aggfn)).

Lemma dict_set_keys c f d :
  (dict_set c f d).*1 = if decide (c ∈ d.*1) then d.*1 else d.*1 ++ [c].
Proof.
  unfold dict_set. case_decide; [|by rewrite fmap_app].
  clear. induction d as [|p d IH]; [done|].
  rewrite !fmap_cons, IH. f_equal. by case_decide.
Qed.

Lemma dict_set_all_keys_new f l d :
  NoDup l → (∀ c, c ∈ l → c ∉ d.*1) →
  (foldl (λ d c, dict_set c f d) d l).*1 = d.*1 ++ l.
Proof.
  intros Hl. revert d. induction Hl as [|n l Hn Hl IH]; intros d Hd; simpl.
  - by rewrite app_nil_r.
  - rewrite IH.
    + rewrite dict_set_keys, decide_False by (apply Hd; by left).
      by rewrite <- app_assoc.
    + intros c Hc. rewrite dict_set_keys, decide_False by (apply Hd; by left).
      intros [Hold|Hnew]%elem_of_app.
      * by eapply Hd; [right|].
      * apply list_elem_of_singleton in Hnew as ->. done.
Qed.

Lemma dict_set_all_keys_old f l d :
  (∀ c, c ∈ l → c ∈ d.*1) →
  (foldl (λ d c, dict_set c f d) d l).*1 = d.*1.
Proof.
  revert d. induction l as [|n l IH]; intros d Hd; simpl; [done|].
  assert ((dict_set n f d).*1 = d.*1) as Hn
    by (rewrite dict_set_keys, decide_True; [done|apply Hd; by left]).
  rewrite IH, Hn; [done|]. intros c Hc. rewrite Hn. apply Hd. by right.
Qed.

Lemma first_fields_keys_eq d l :
  (foldl (λ d c, if decide (c ∈ d.*1) then dict_set c AggFirst d else d) d l).*1
    = d.*1.
Proof.
  revert d. induction l as [|n l IH]; intros d; simpl; [done|].
  rewrite IH. case_decide; [|done]. by rewrite dict_set_keys, decide_True.
Qed.

(** With a plain key the dictionary lists the columns outside the key,
    in table order. *)
Lemma agg_spec_keys cols key :
  NoDup cols → plain_key key →
  (agg_spec cols key).*1 = filter (λ c, c ∉ key) cols.
Proof.
  intros Hcols Hplain. unfold agg_spec. rewrite first_fields_keys_eq.
  unfold plain_key in Hplain. rewrite Forall_forall in Hplain.
  assert ((foldl (λ d c, dict_set c AggSum d)
            (foldl (λ d c, dict_set c AggFirst d) [] (filter (λ c, c ∉ key) cols))
            (numeric_sum cols)).*1 = filter (λ c, c ∉ key) cols) as Hsum.
  { assert ((foldl (λ d c, dict_set c AggFirst d) []
               (filter (λ c, c ∉ key) cols)).*1 = filter (λ c, c ∉ key) cols) as Hfirst.
    { rewrite dict_set_all_keys_new; [done|by apply NoDup_filter|].
      intros c _. apply not_elem_of_nil. }
    rewrite dict_set_all_keys_old, Hfirst; [done|].
    intros c Hc. rewrite Hfirst. apply list_elem_of_filter.
    assert (c ∈ cols ∧ is_capacity c = true) as [Hin Hcap].
    { unfold numeric_sum in Hc. apply elem_of_app in Hc as [Ht|Hf].
      - case_decide; [|by apply elem_of_nil in Ht].
        by apply list_elem_of_singleton in Ht as ->.
      - apply list_elem_of_filter in Hf. tauto. }
    split; [|done]. intros Hk. destruct (Hplain _ Hk). congruence. }
  case_decide as Hw; [|done].
  rewrite dict_set_keys, decide_True; [done|]. rewrite Hsum.
  apply list_elem_of_filter. split; [|done]. intros Hk. by destruct (Hplain _ Hk).
Qed.

Lemma grouping_key_subset cols key c :
  grouping_key cols = Ok key → c ∈ key → c ∈ cols.
Proof.
  unfold grouping_key. case_decide.
  - by intros [= <-] ->%list_elem_of_singleton.
  - destruct (filter (λ c, c ∈ cols) KEY_FIELDS) as [|c0 l] eqn:E.
    + destruct cols; [done|]. intros [= <-] ->%list_elem_of_singleton. by left.
    + intros [= <-]. rewrite <- E. by intros [? _]%list_elem_of_filter.
Qed.

Lemma aligned_groupby_agg df key d out :
  groupby_agg df key d = Ok out → aligned out.
Proof.
  intros [Hcols Hrows]%groupby_agg_rows. unfold aligned. rewrite Hcols.
  revert Hrows. generalize (group_keys df key) (data out).
  induction 1 as [|k row ks rows Hrow Hrest IH]; constructor; [|done].
  unfold agg_row in Hrow. destruct (mapM _ d) as [vals|] eqn:Hvals; [|done].
  injection Hrow as <-. apply mapM_Ok, Forall2_length in Hvals.
  by rewrite !length_app, !length_fmap, Hvals.
Qed.

(** For a table with pairwise distinct labels and a key that is not
    itself aggregated, the aggregated table has the columns of the
    input, the key columns first and the others in their input order;
    every output row holds one cell per column. *)
Theorem aggregated_columns (df : DataFrame num) key out :
  NoDup (columns df) →
  grouping_key (columns df) = Ok key →
  plain_key key →
  _aggregate_duplicates df = Ok out →
  columns out = key ++ filter (λ c, c ∉ key) (columns df) ∧
  columns out ≡ₚ columns df ∧
  aligned out.
Proof.
  intros Hnd Hkey Hplain Hagg.
  pose proof (aggregate_with_key df key out Hkey Hagg) as Hgroup.
  assert (columns out = key ++ filter (λ c, c ∉ key) (columns df)) as Hcols.
  { apply groupby_agg_rows in Hgroup as [-> _].
    by rewrite out_keys_plain, agg_spec_keys. }
  split_and!; [done| |by eapply aligned_groupby_agg].
  rewrite Hcols. apply NoDup_Permutation; [|done|].
  - apply NoDup_app. split_and!.
    + by eapply grouping_key_NoDup.
    + by intros c Hc [? _]%list_elem_of_filter.
    + by apply NoDup_filter.
  - intros c. rewrite elem_of_app, list_elem_of_filter. split.
    + intros [Hc|[_ ?]]; [by eapply grouping_key_subset|done].
    + intros Hc. destruct (decide (c ∈ key)); auto.
Qed.

Lemma length_group_keys df key :
  length (group_keys df key) = length (remove_dups (key_of (columns df) key <$> data df)).
Proof. unfold group_keys. by rewrite merge_sort_Permutation. Qed.

(** Aggregation never adds rows: there are at most as many output rows
    as input rows, none exactly when the input has none, and as many as
    input rows when no two input rows share a key tuple. *)
Theorem aggregated_row_count (df : DataFrame num) key out :
  grouping_key (columns df) = Ok key →
  _aggregate_duplicates df = Ok out →
  (length (data out) ≤ length (data df))%nat ∧
  (data out = [] ↔ data df = []) ∧
  (NoDup (key_of (columns df) key <$> data df) →
     length (data out) = length (data df)).
Proof.
  intros Hkey Hagg.
  pose proof (aggregate_with_key df key out Hkey Hagg) as Hgroup.
  pose proof (output_length _ _ _ _ Hgroup) as Hlen.
  rewrite length_group_keys in Hlen. split_and!.
  - rewrite Hlen, <- (length_fmap (key_of (columns df) key) (data df)).
    apply submseteq_length, NoDup_submseteq; [apply NoDup_remove_dups|].
    intros k. by rewrite elem_of_remove_dups.
  - split.
    + intros Hout. rewrite Hout in Hlen. simpl in Hlen.
      destruct (data df) as [|r rs] eqn:E; [done|].
      assert (key_of (columns df) key r ∈
                remove_dups (key_of (columns df) key <$> r :: rs)) as Hin
        by (rewrite elem_of_remove_dups, fmap_cons; by left).
      destruct (remove_dups _); [by apply elem_of_nil in Hin|done].
    + intros Hdf. rewrite Hdf in Hlen. by destruct (data out).
  - intros Hnd. rewrite Hlen, <- (length_fmap (key_of (columns df) key) (data df)).
    apply Permutation_length, NoDup_Permutation; [apply NoDup_remove_dups|done|].
    intros k. by rewrite elem_of_remove_dups.
Qed.



End AggregateShape.

(** ** What standardization guarantees *)

Section StandardizeShape.
Context {num : Type} `{HN : Numeric num}.
Implicit Types (df u : DataFrame num) (c : string).

Lemma length_data_drop_unnamed df :
  length (data (drop_unnamed df)) = length (data df).
Proof.
  unfold drop_unnamed. destruct (columns df) as [|c cols]; [done|].
  destruct (is_unnamed c); [|done]. unfold drop. simpl. by rewrite length_fmap.
Qed.

Lemma length_data_normalize old new df :
  length (data (normalize_name old new df)) = length (data df).
Proof. unfold normalize_name. by case_decide. Qed.

Lemma length_data_extract u :
  length (data (extract_coordinates u)) = length (data u).
Proof.
  unfold extract_coordinates. case_decide; [|done].
  assert (length (_extract_lat_lon <$> column u "Coordinates") = length (data u)) as Hlen
    by (by rewrite length_fmap, length_column).
  destruct (decide ("latitude" ∉ columns u)).
  - case_decide.
    + rewrite length_data_assign.
      * rewrite length_data_assign; [done|by rewrite length_fmap].
      * rewrite length_data_assign; by rewrite length_fmap.
    + rewrite length_data_assign; [done|by rewrite length_fmap].
  - case_decide; [|done].
    rewrite length_data_assign; [done|by rewrite length_fmap].
Qed.

Lemma length_data_add_total u :
  length (data (add_total_capacity u)) = length (data u).
Proof.
  unfold add_total_capacity. destruct (cap_cols u); [done|].
  rewrite length_data_assign; by rewrite ?length_fmap.
Qed.

Lemma length_data_standardize df :
  length (data (_standardize_columns df)) = length (data df).
Proof.
  unfold _standardize_columns, before_total, before_coordinates.
  by rewrite length_data_add_total, length_data_extract, !length_data_normalize,
    length_data_drop_unnamed.
Qed.

(** Standardization keeps the number of rows and leaves a rectangular
    table in which every label is trimmed, a [Latitude] or [Longitude]
    column never stands without its lower-case counterpart, a
    [Coordinates] column comes with both [latitude] and [longitude], and
    any capacity-like column comes with [Total capacity (ttpa)]. *)
Theorem standardize_invariants (df : DataFrame num) :
  aligned df →
  length (data (_standardize_columns df)) = length (data df) ∧
  aligned (_standardize_columns df) ∧
  (∀ c, c ∈ columns (_standardize_columns df) → PyStr.strip c = c) ∧
  ("Latitude" ∈ columns (_standardize_columns df) →
     "latitude" ∈ columns (_standardize_columns df)) ∧
  ("Longitude" ∈ columns (_standardize_columns df) →
     "longitude" ∈ columns (_standardize_columns df)) ∧
  ("Coordinates" ∈ columns (_standardize_columns df) →
     "latitude" ∈ columns (_standardize_columns df) ∧
     "longitude" ∈ columns (_standardize_columns df)) ∧
  (∀ c, c ∈ columns (_standardize_columns df) → is_capacity c = true →
     TOTAL ∈ columns (_standardize_columns df)).
Proof.
  intros Hal.
  destruct (standardize_standardized df Hal) as [Hal' Hstr Hlat Hlon Hcoord Htot].
  split_and!; try done.
  - apply length_data_standardize.
  - by apply Forall_forall.
  - intros c Hc Hcap. apply Htot. intros Hnil.
    assert (c ∈ cap_cols (_standardize_columns df)) as Hin
      by (by apply list_elem_of_filter).
    rewrite Hnil in Hin. by apply elem_of_nil in Hin.
Qed.

Lemma row_sum_float_or_missing (vs : list (cell num)) : float_or_missing (row_sum vs).
Proof. unfold row_sum. by destruct (nums vs). Qed.

Lemma total_float_or_missing df :
  aligned df → Forall float_or_missing (column (_standardize_columns df) TOTAL).
Proof.
  intros Hal. pose proof (aligned_before_total df Hal) as Hu.
  unfold _standardize_columns, add_total_capacity.
  destruct (cap_cols (before_total df)) as [|c0 l] eqn:E.
  - unfold column. apply Forall_fmap, Forall_true. intros r. simpl.
    rewrite cell_at_not_in; [done|]. intros Hin.
    assert (TOTAL ∈ cap_cols (before_total df)) as Hcap
      by (by apply list_elem_of_filter).
    rewrite E in Hcap. by apply elem_of_nil in Hcap.
  - rewrite column_assign_eq; [|done|by rewrite length_fmap].
    apply Forall_fmap, Forall_true. intros r. apply row_sum_float_or_missing.
Qed.

Lemma Forall2_Forall_right {A B} (P : A → B → Prop) (Q : B → Prop) l k :
  Forall2 P l k → (∀ x y, P x y → Q y) → Forall Q k.
Proof. induction 1; intros HPQ; constructor; eauto. Qed.

Lemma agg_sum_number (vs : list (cell num)) v :
  Forall float_or_missing vs → agg_sum vs = Ok v → is_number v.
Proof.
  intros Hvs. rewrite agg_sum_numbers; [by intros [= <-]|].
  apply texts_nil. eapply Forall_impl; [done|]. intros [|x|s] Hf Ht; done.
Qed.

Lemma capacity_sums_of_groups df key out c :
  groupby_agg df key (agg_spec (columns df) key) = Ok out →
  c ∈ columns df → is_capacity c = true →
  Forall2 (λ k v, agg_sum (group_values df key k c) = Ok v)
          (group_keys df key) (column out c).
Proof.
  intros Hgroup Hc Hcap.
  exact (groupby_agg_column df key _ out c AggSum Hgroup
           (agg_spec_sum (columns df) key c Hc Hcap)).
Qed.

Lemma aggregate_Ok_key df out :
  _aggregate_duplicates df = Ok out →
  ∃ key, grouping_key (columns df) = Ok key ∧
         groupby_agg df key (agg_spec (columns df) key) = Ok out.
Proof.
  unfold _aggregate_duplicates. destruct (grouping_key (columns df)) as [key|e]; [|done].
  intros Hgroup. by exists key.
Qed.

(** After the whole pipeline the derived total is a number on every row:
    standardization leaves numbers and missing values in
    [Total capacity (ttpa)], and the group sum turns a group without
    any value into zero, so no output row has a missing total. *)
Theorem pipeline_total_is_number (df : DataFrame num) out :
  aligned df →
  TOTAL ∈ columns (_standardize_columns df) →
  _aggregate_duplicates (_standardize_columns df) = Ok out →
  Forall float_or_missing (column (_standardize_columns df) TOTAL) ∧
  Forall is_number (column out TOTAL).
Proof.
  intros Hal Htot Hagg. pose proof (total_float_or_missing df Hal) as Hnum.
  split; [done|].
  destruct (aggregate_Ok_key _ _ Hagg) as (key & Hkey & Hgroup).
  pose proof (capacity_sums_of_groups _ key out TOTAL Hgroup Htot is_capacity_TOTAL)
    as Hcol.
  eapply Forall2_Forall_right; [exact Hcol|].
  intros k v. apply agg_sum_number. by apply group_values_Forall.
Qed.

End StandardizeShape.

(** ** Filter options *)

Section Options.
Context {num : Type} `{HN : Numeric num}.
Implicit Types (df f : DataFrame num) (v : cell num) (vs : list (cell num)).

Lemma elem_of_unique vs v : v ∈ unique vs ↔ v ∈ vs.
Proof.
  induction vs as [|x vs IH]; simpl; [done|].
  rewrite !elem_of_cons, list_elem_of_filter, IH.
  destruct (decide (v = x)); [by split; auto|]. tauto.
Qed.

Lemma NoDup_unique vs : NoDup (unique vs).
Proof.
  induction vs as [|x vs IH]; simpl; constructor.
  - by intros [? _]%list_elem_of_filter.
  - by apply NoDup_filter.
Qed.

Lemma elem_of_dropna vs v : v ∈ dropna vs ↔ v ≠ NA ∧ v ∈ vs.
Proof. unfold dropna. by rewrite list_elem_of_filter. Qed.

Lemma elem_of_nums vs (x : num) : x ∈ nums vs ↔ Num x ∈ vs.
Proof.
  unfold nums. rewrite list_elem_of_omap. split.
  - by intros ([| |] & Hin & [= <-]).
  - intros Hin. by exists (Num x).
Qed.

Lemma elem_of_texts vs (s : string) : s ∈ texts vs ↔ Str s ∈ vs.
Proof.
  unfold texts. rewrite list_elem_of_omap. split.
  - by intros ([| |] & Hin & [= <-]).
  - intros Hin. by exists (Str s).
Qed.

Lemma py_sorted_raises vs :
  py_sorted vs = Raise TypeError ↔ (∃ x, Num x ∈ vs) ∧ (∃ s, Str s ∈ vs).
Proof.
  unfold py_sorted.
  destruct (nums vs) as [|x xs] eqn:Hn, (texts vs) as [|s ss] eqn:Ht.
  - split; [done|]. intros [[x Hx%elem_of_nums] _]. rewrite Hn in Hx.
    by apply elem_of_nil in Hx.
  - split; [done|]. intros [[x Hx%elem_of_nums] _]. rewrite Hn in Hx.
    by apply elem_of_nil in Hx.
  - split; [done|]. intros [_ [s Hs%elem_of_texts]]. rewrite Ht in Hs.
    by apply elem_of_nil in Hs.
  - split; [|done]. intros _. split.
    + exists x. apply elem_of_nums. rewrite Hn. by left.
    + exists s. apply elem_of_texts. rewrite Ht. by left.
Qed.

Lemma py_sorted_returns vs l : py_sorted vs = Ok l → l = merge_sort cell_le vs.
Proof.
  unfold py_sorted. destruct (nums vs), (texts vs); by intros [= <-].
Qed.

Lemma options_members df c l v :
  options c df = Ok l → v ∈ l ↔ v ≠ NA ∧ v ∈ column df c.
Proof.
  intros ->%py_sorted_returns.
  by rewrite merge_sort_Permutation, elem_of_unique, elem_of_dropna.
Qed.

Lemma filter_ext_in {A} (P Q : A → Prop) `{∀ x, Decision (P x)} `{∀ x, Decision (Q x)}
    (l : list A) :
  (∀ x, x ∈ l → P x ↔ Q x) → filter P l = filter Q l.
Proof.
  induction l as [|x l IH]; intros Hall; [done|].
  rewrite !filter_cons, IH by (intros y Hy; apply Hall; by right).
  destruct (decide (P x)) as [Hp|Hp], (decide (Q x)) as [Hq|Hq]; try done.
  - destruct Hq. apply Hall; [by left|done].
  - destruct Hp. apply Hall; [by left|done].
Qed.

(** Offering every value of a column and selecting them all still hides
    the rows where the column is missing; a column with no value at all
    offers nothing, and then its filter does not run. *)
Theorem select_all_hides_missing (df : DataFrame num) c selected :
  options c df = Ok selected →
  (selected = [] ↔ Forall (λ v, v = NA) (column df c)) ∧
  (selected ≠ [] →
     columns (filter_isin (Some c) selected df) = columns df ∧
     data (filter_isin (Some c) selected df) =
       filter (λ r, cell_at (columns df) r c ≠ NA) (data df)) ∧
  filter_isin (Some c) [] df = df.
Proof.
  intros Hopt. split_and!; [|intros Hsel|done].
  - rewrite Forall_forall. split.
    + intros -> v Hv. destruct (decide (v = NA)) as [|Hne]; [done|].
      assert (v ∈ ([] : list (cell num))) as Hin
        by (by apply (options_members df c [] v Hopt)).
      by apply elem_of_nil in Hin.
    + intros Hall. destruct selected as [|v l]; [done|].
      assert (v ≠ NA ∧ v ∈ column df c) as [Hne Hin]
        by (apply (options_members df c (v :: l) v Hopt); by left).
      by destruct Hne; apply Hall.
  - unfold filter_isin. destruct selected as [|v l]; [done|].
    split; [done|]. unfold keep_rows. simpl. apply filter_ext_in.
    intros r Hr. rewrite (options_members df c (v :: l) _ Hopt).
    split; [tauto|]. intros Hne. split; [done|].
    unfold column. apply list_elem_of_fmap. by exists r.
Qed.

End Options.

Section OptionsOrder.
Context {num : Type} `{HN : Numeric num} {HL : NumericLaws num}.

(** The entries a filter offers are the values of the column that are
    not missing, each once, in ascending order; building the list
    raises [TypeError], and nothing else, exactly when the column holds
    both a number and a text. *)
Theorem options_sorted_distinct (df : DataFrame num) c :
  (∀ l, options c df = Ok l →
     StronglySorted (λ a b, cell_le a b ∧ a ≠ b) l ∧
     ∀ v, v ∈ l ↔ v ≠ NA ∧ v ∈ column df c) ∧
  (options c df = Raise TypeError ↔
     (∃ x, Num x ∈ column df c) ∧ (∃ s, Str s ∈ column df c)) ∧
  (∀ e, options c df = Raise e → e = TypeError).
Proof using HL.
  split_and!.
  - intros l Hopt. split; [|intros v; by apply options_members].
    apply py_sorted_returns in Hopt as ->.
    apply sorted_distinct_strict.
    + apply StronglySorted_merge_sort; apply _.
    + rewrite merge_sort_Permutation. apply NoDup_unique.
  - unfold options. rewrite py_sorted_raises.
    setoid_rewrite elem_of_unique. setoid_rewrite elem_of_dropna.
    split; intros [[x Hx] [s Hs]]; (split; [exists x|exists s]); naive_solver.
  - intros e. unfold options, py_sorted.
    destruct (nums _); [|destruct (texts _)]; by intros [= <-].
Qed.

End OptionsOrder.

(** ** Filters, figures and the map *)

Section Filters.
Context {num : Type} `{HN : Numeric num}.
Implicit Types (df f : DataFrame num) (r : list (cell num)).
Implicit Types (selected : list (cell num)).

(** A row passes a selection filter that does not run, or whose column
    holds one of the selected values. *)
Definition passes_isin (col : option string) selected (cols : list string) r : Prop :=
  match selected, col with
  | _ :: _, Some c => cell_at cols r c ∈ selected
  | _, _ => True
  end.

Definition passes_capacity (col : option string) (cap_range : option (num * num))
    (cols : list string) r : Prop :=
  match cap_range, col with
  | Some (lo, hi), Some c => between lo hi (cell_at cols r c)
  | _, _ => True
  end.

Lemma filter_isin_spec col selected f :
  columns (filter_isin col selected f) = columns f ∧
  data (filter_isin col selected f) `sublist_of` data f ∧
  ∀ r, r ∈ data (filter_isin col selected f) ↔
       r ∈ data f ∧ passes_isin col selected (columns f) r.
Proof.
  unfold filter_isin, passes_isin. destruct selected as [|v l], col as [c|];
    try (split_and!; [done|done|intros r; tauto]).
  unfold keep_rows. simpl. split_and!; [done|apply sublist_filter|].
  intros r. rewrite list_elem_of_filter. tauto.
Qed.

Lemma filter_capacity_spec col cap_range f :
  columns (filter_capacity col cap_range f) = columns f ∧
  data (filter_capacity col cap_range f) `sublist_of` data f ∧
  ∀ r, r ∈ data (filter_capacity col cap_range f) ↔
       r ∈ data f ∧ passes_capacity col cap_range (columns f) r.
Proof.
  unfold filter_capacity, passes_capacity.
  destruct cap_range as [[lo hi]|], col as [c|];
    try (split_and!; [done|done|intros r; tauto]).
  unfold keep_rows. simpl. split_and!; [done|apply sublist_filter|].
  intros r. rewrite list_elem_of_filter. tauto.
Qed.

Lemma apply_filters_sublist df selected_companies selected_regions
    selected_countries (cap_range : option (num * num)) :
  data (apply_filters df selected_companies selected_regions
          selected_countries cap_range) `sublist_of` data df.
Proof.
  unfold apply_filters.
  etrans; [apply filter_capacity_spec|].
  etrans; [apply filter_isin_spec|].
  etrans; [apply filter_isin_spec|]. apply filter_isin_spec.
Qed.

(** The filters only take rows away: the filtered table has the columns
    of the table and a subsequence of its rows, namely the rows that
    pass every filter that runs (so the order of the four filters does
    not matter); with nothing selected and no capacity range the table
    is returned as it is. *)
Theorem apply_filters_spec (df : DataFrame num)
    (selected_companies selected_regions selected_countries : list (cell num))
    (cap_range : option (num * num)) :
  columns (apply_filters df selected_companies selected_regions
             selected_countries cap_range) = columns df ∧
  data (apply_filters df selected_companies selected_regions
          selected_countries cap_range) `sublist_of` data df ∧
  (∀ r, r ∈ data (apply_filters df selected_companies selected_regions
                    selected_countries cap_range) ↔
        r ∈ data df ∧
        passes_isin (company_col df) selected_companies (columns df) r ∧
        passes_isin (region_col df) selected_regions (columns df) r ∧
        passes_isin (country_col df) selected_countries (columns df) r ∧
        passes_capacity (capacity_col df) cap_range (columns df) r) ∧
  apply_filters df [] [] [] None = df.
Proof.
  unfold apply_filters.
  destruct (filter_isin_spec (company_col df) selected_companies df)
    as (Hc1 & Hs1 & Hm1).
  destruct (filter_isin_spec (region_col df) selected_regions
              (filter_isin (company_col df) selected_companies df))
    as (Hc2 & Hs2 & Hm2).
  destruct (filter_isin_spec (country_col df) selected_countries
              (filter_isin (region_col df) selected_regions
                 (filter_isin (company_col df) selected_companies df)))
    as (Hc3 & Hs3 & Hm3).
  destruct (filter_capacity_spec (capacity_col df) cap_range
              (filter_isin (country_col df) selected_countries
                 (filter_isin (region_col df) selected_regions
                    (filter_isin (company_col df) selected_companies df))))
    as (Hc4 & Hs4 & Hm4).
  split_and!.
  - by rewrite Hc4, Hc3, Hc2, Hc1.
  - apply apply_filters_sublist.
  - intros r. rewrite Hm4, Hm3, Hm2, Hm1, Hc3, Hc2, Hc1. tauto.
  - unfold filter_capacity. by destruct (capacity_col df).
Qed.

(** *** The figures *)

Lemma length_unique_le (vs : list (cell num)) : (length (unique vs) ≤ length vs)%nat.
Proof.
  induction vs as [|v vs IH]; simpl; [done|].
  pose proof (sublist_length _ _ (sublist_filter (λ x, x ≠ v) (unique vs))). lia.
Qed.

(** Filtering can only lower [Total plants]; [Distinct companies] never
    exceeds [Total plants]; and on the unfiltered table it is the number
    of entries the company filter offers. *)
Theorem figures_bounds (df : DataFrame num)
    (selected_companies selected_regions selected_countries : list (cell num))
    (cap_range : option (num * num)) :
  (total_plants (apply_filters df selected_companies selected_regions
                   selected_countries cap_range) ≤ total_plants df)%nat ∧
  (∀ f, (n_companies df f ≤ total_plants f)%nat) ∧
  (∀ l, "Owner" ∈ columns df → options "Owner" df = Ok l →
        n_companies df df = length l).
Proof.
  split_and!.
  - unfold total_plants. apply sublist_length, apply_filters_sublist.
  - intros f. unfold n_companies, total_plants.
    destruct (company_col df) as [c|]; [|lia].
    etrans; [apply length_unique_le|].
    unfold dropna. etrans; [apply sublist_length, sublist_filter|].
    by rewrite length_column.
  - intros l Hin ->%py_sorted_returns. unfold n_companies, company_col, optional_col.
    rewrite decide_True by done. by rewrite merge_sort_Permutation.
Qed.

(** *** The map *)


End Filters.

(** ** The capacity range the slider starts with *)

Section CapacityRange.
Context {num : Type} `{HN : Numeric num} {HL : NumericLaws num}.
Implicit Types (df s out : DataFrame num) (r : list (cell num)).

Lemma num_min_fold_spec (x : num) (xs : list num) :
  foldl num_min x xs ∈ x :: xs ∧ ∀ y, y ∈ x :: xs → num_le (foldl num_min x xs) y.
Proof using HL.
  revert x. induction xs as [|z xs IH]; intros x; simpl.
  - split; [by left|]. intros y ->%list_elem_of_singleton. reflexivity.
  - destruct (IH (num_min x z)) as [Hin Hlb]. unfold num_min in *.
    destruct (decide (num_le x z)) as [Hxz|Hxz].
    + split.
      * apply elem_of_cons in Hin as [->|Hin]; [by left|by do 2 right].
      * intros y [->|[->|Hy]%elem_of_cons]%elem_of_cons.
        -- apply Hlb. by left.
        -- etrans; [|done]. apply Hlb. by left.
        -- apply Hlb. by right.
    + assert (num_le z x) as Hzx by (by destruct (total num_le x z)).
      split; [by right|]. intros y [->|Hy]%elem_of_cons.
      * etrans; [|done]. apply Hlb. by left.
      * by apply Hlb.
Qed.

(** A capacity that is a number and not negative. *)
Definition nonneg_capacity (v : cell num) : Prop :=
  match coerce v with
  | Num x => num_le num_zero x
  | _ => False
  end.

#[export] Instance nonneg_capacity_dec v : Decision (nonneg_capacity v).
Proof. unfold nonneg_capacity. destruct (coerce v); apply _. Defined.

Lemma initial_cap_range_bounds df lo hi :
  initial_cap_range df = Some (Some lo, Some hi) →
  TOTAL ∈ columns df ∧
  ∃ cmin cmax,
    lo = (if decide (num_le num_zero cmin) then cmin else num_zero) ∧
    hi = (if decide (num_le num_zero cmax) then cmax else num_zero) ∧
    num_le cmin cmax ∧
    ∀ x, x ∈ nums (coerce <$> column df TOTAL) → num_le cmin x ∧ num_le x cmax.
Proof using HL.
  unfold initial_cap_range, capacity_col, optional_col.
  case_decide as Hin; [|done]. case_bool_decide; [|done].
  unfold series_min, series_max, py_max_zero.
  destruct (nums (coerce <$> column df TOTAL)) as [|x0 xs] eqn:E; [done|].
  intros [= <- <-]. split; [done|].
  destruct (num_min_fold_spec x0 xs) as [Hmin_in Hmin].
  destruct (num_max_fold_spec x0 xs) as [Hmax_in Hmax].
  exists (foldl num_min x0 xs), (foldl num_max x0 xs). split_and!; [done|done| |].
  - by apply Hmin.
  - intros x Hx. split; [by apply Hmin|by apply Hmax].
Qed.

(** When the script creates the slider with numeric bounds, the range
    it passes as initial value goes from 0 or the smallest capacity,
    whichever is larger, to 0 or the largest, so it is a proper range
    above zero; filtering with it keeps exactly the rows whose capacity
    is a number that is not negative, and hides the rows whose capacity
    is missing. *)
Theorem initial_range_keeps_nonnegative (df : DataFrame num) lo hi :
  initial_cap_range df = Some (Some lo, Some hi) →
  num_le num_zero lo ∧ num_le lo hi ∧
  columns (filter_capacity (capacity_col df) (Some (lo, hi)) df) = columns df ∧
  data (filter_capacity (capacity_col df) (Some (lo, hi)) df) =
    filter (λ r, nonneg_capacity (cell_at (columns df) r TOTAL)) (data df).
Proof using HL.
  intros (Hin & cmin & cmax & -> & -> & Hmm & Hall)%initial_cap_range_bounds.
  assert (capacity_col df = Some TOTAL) as ->
    by (unfold capacity_col, optional_col; by rewrite decide_True).
  split_and!.
  - case_decide; [done|reflexivity].
  - destruct (decide (num_le num_zero cmin)) as [Hmin|Hmin],
             (decide (num_le num_zero cmax)) as [Hmax|Hmax]; try done.
    destruct Hmax. by etrans.
  - done.
  - unfold filter_capacity, keep_rows. simpl. apply filter_ext_in.
    intros r Hr. unfold between, nonneg_capacity.
    destruct (coerce (cell_at (columns df) r TOTAL)) as [|x|s] eqn:E; [done| |done].
    destruct (Hall x) as [Hlo Hhi].
    { apply elem_of_nums. rewrite <- E. apply list_elem_of_fmap.
      exists (cell_at (columns df) r TOTAL). split; [done|].
      unfold column. apply list_elem_of_fmap. by exists r. }
    split.
    + intros [H1 _]. destruct (decide (num_le num_zero cmin)) as [Hm|Hm]; [|done].
      etrans; [exact Hm|exact Hlo].
    + intros H0x. split.
      * by destruct (decide (num_le num_zero cmin)).
      * destruct (decide (num_le num_zero cmax)) as [Hc|Hc]; [done|].
        destruct Hc. etrans; [exact H0x|exact Hhi].
Qed.

(** The slider exists with numeric bounds exactly when the table has the
    derived total and one of its values is a number. *)
Lemma initial_range_exists (df : DataFrame num) :
  (∃ lo hi, initial_cap_range df = Some (Some lo, Some hi)) ↔
  TOTAL ∈ columns df ∧ ∃ x, Num x ∈ coerce <$> column df TOTAL.
Proof using HL.
  split.
  - intros (lo & hi & Hr). unfold initial_cap_range, capacity_col, optional_col in Hr.
    case_decide as Hin; [|done]. split; [done|]. case_bool_decide; [|done].
    unfold series_min, py_max_zero in Hr.
    destruct (nums (coerce <$> column df TOTAL)) as [|x0 xs] eqn:E; [done|].
    exists x0. apply elem_of_nums. rewrite E. by left.
  - intros [Hin [x Hx]]. unfold initial_cap_range, capacity_col, optional_col.
    rewrite decide_True by done. rewrite bool_decide_true.
    + unfold series_min, series_max, py_max_zero.
      apply elem_of_nums in Hx as Hn.
      destruct (nums (coerce <$> column df TOTAL)) as [|x0 xs];
        [by apply elem_of_nil in Hn|]. eauto.
    + apply list_elem_of_fmap in Hx as (v & Hv & Hin').
      apply Exists_exists. exists v. split; [done|]. intros ->. done.
Qed.

Lemma aggregated_total s out :
  TOTAL ∈ columns s → Forall float_or_missing (column s TOTAL) →
  _aggregate_duplicates s = Ok out →
  TOTAL ∈ columns out ∧ Forall is_number (column out TOTAL).
Proof.
  intros Htot Hnum Hagg.
  destruct (aggregate_Ok_key _ _ Hagg) as (key & Hkey & Hgroup).
  pose proof (agg_spec_sum (columns s) key TOTAL Htot is_capacity_TOTAL) as Hget.
  split.
  - apply groupby_agg_rows in Hgroup as [-> _]. apply elem_of_app. right.
    by eapply dict_get_Some_elem_of.
  - eapply Forall2_Forall_right;
      [exact (groupby_agg_column s key _ out TOTAL AggSum Hgroup Hget)|].
    intros k v. apply agg_sum_number. by apply group_values_Forall.
Qed.

Lemma slider_of_aggregated s out :
  TOTAL ∈ columns s → Forall float_or_missing (column s TOTAL) →
  _aggregate_duplicates s = Ok out → data out ≠ [] →
  capacity_col out = Some TOTAL ∧
  ∃ lo hi, initial_cap_range out = Some (Some lo, Some hi).
Proof using HL.
  intros Htot Hnum Hagg Hne.
  destruct (aggregated_total s out Htot Hnum Hagg) as [Hin Hall].
  split; [unfold capacity_col, optional_col; by rewrite decide_True|].
  apply initial_range_exists. split; [done|].
  unfold column in *. destruct (data out) as [|r rs]; [done|].
  apply Forall_cons in Hall as [Hr _]. simpl.
  destruct (cell_at (columns out) r TOTAL) as [|x|t]; [done| |done].
  exists x. by left.
Qed.

(** A table that [load_data] returns with at least one row, read from a
    file whose standardized table has the derived total, always reaches
    the capacity slider, with numeric bounds: aggregation leaves a
    number in [Total capacity (ttpa)] on every row. *)
Theorem loaded_table_has_slider (fs : gmap string (DataFrame num)) df out :
  fs !! INPUT_FILE = Some df →
  aligned df →
  TOTAL ∈ columns (_standardize_columns df) →
  load_data fs = Ok out →
  data out ≠ [] →
  capacity_col out = Some TOTAL ∧
  ∃ lo hi, initial_cap_range out = Some (Some lo, Some hi).
Proof using HL.
  intros Hfs Hal Htot Hload Hne. unfold load_data in Hload. rewrite Hfs in Hload.
  exact (slider_of_aggregated _ out Htot (total_float_or_missing df Hal) Hload Hne).
Qed.

End CapacityRange.

(** ** When the dashboard stops *)

Section Startup.
Context {num : Type} `{HN : Numeric num}.
Implicit Types (df s out : DataFrame num).

Lemma grouping_key_nonempty cols key : grouping_key cols = Ok key → key ≠ [].
Proof.
  unfold grouping_key. case_decide; [by intros [= <-]|].
  destruct (filter (λ c, c ∈ cols) KEY_FIELDS); [|by intros [= <-]].
  destruct cols; [done|]. by intros [= <-].
Qed.

Lemma aggregated_columns_nonempty s out :
  _aggregate_duplicates s = Ok out → columns out ≠ [].
Proof.
  intros (key & Hkey & Hgroup)%aggregate_Ok_key.
  apply grouping_key_nonempty in Hkey.
  apply groupby_agg_rows in Hgroup as [-> _].
  destruct key as [|c key]; [done|]. unfold out_keys. rewrite filter_cons.
  case_decide as Hc; [done|]. intros [_ Hnil]%app_eq_nil.
  rewrite Hnil in Hc. by apply elem_of_nil in Hc.
Qed.

Lemma aggregated_no_rows s out :
  _aggregate_duplicates s = Ok out → data out = [] ↔ data s = [].
Proof.
  intros (key & Hkey & Hgroup)%aggregate_Ok_key.
  pose proof (output_length _ _ _ _ Hgroup) as Hlen.
  rewrite length_group_keys in Hlen. split.
  - intros Hout. rewrite Hout in Hlen. simpl in Hlen.
    destruct (data s) as [|r rs] eqn:E; [done|].
    assert (key_of (columns s) key r ∈
              remove_dups (key_of (columns s) key <$> r :: rs)) as Hin
      by (rewrite elem_of_remove_dups, fmap_cons; by left).
    destruct (remove_dups _); [by apply elem_of_nil in Hin|done].
  - intros Hs. rewrite Hs in Hlen. by destruct (data out).
Qed.

Lemma empty_of_aggregated s out :
  _aggregate_duplicates s = Ok out →
  columns out ≠ [] ∧ (empty out = true ↔ length (data s) = 0%nat).
Proof.
  intros Hagg. pose proof (aggregated_columns_nonempty s out Hagg) as Hcols.
  split; [done|]. unfold empty. rewrite bool_decide_eq_true.
  rewrite length_zero_iff_nil, <- (aggregated_no_rows s out Hagg). tauto.
Qed.

(** The script goes on past its first check unless the file has no
    rows: a table that [load_data] returns always has a column, and it
    has no row exactly when the file has none. *)
Theorem dashboard_stops_without_rows (fs : gmap string (DataFrame num)) df out :
  fs !! INPUT_FILE = Some df →
  load_data fs = Ok out →
  columns out ≠ [] ∧ (empty out = true ↔ data df = []).
Proof.
  intros Hfs Hload. unfold load_data in Hload. rewrite Hfs in Hload.
  destruct (empty_of_aggregated _ out Hload) as [Hcols Hempty].
  split; [done|].
  by rewrite Hempty, length_data_standardize, length_zero_iff_nil.
Qed.

End Startup.

(** * The pipeline on concrete tables *)

Import ZNum.

#[export] Instance Z_numeric_laws : NumericLaws Z.
Proof. split; [apply Z.le_po|apply Z.le_total]. Qed.

(** Two plants reported twice each; [P2] has no capacity figure. *)
Definition plants : DataFrame Z :=
  mkDF ["Plant ID"; "Capacity"; "Owner"]
       [[Str "P2"; NA; Str "C"];
        [Str "P1"; Num 100; NA];
        [Str "P2"; NA; NA];
        [Str "P1"; Num 50; Str "B"]].

Definition plants_std : DataFrame Z :=
  mkDF ["Plant ID"; "Capacity"; "Owner"; "Total capacity (ttpa)"]
       [[Str "P2"; NA; Str "C"; NA];
        [Str "P1"; Num 100; NA; Num 100];
        [Str "P2"; NA; NA; NA];
        [Str "P1"; Num 50; Str "B"; Num 50]].

Definition plants_out : DataFrame Z :=
  mkDF ["Plant ID"; "Capacity"; "Owner"; "Total capacity (ttpa)"]
       [[Str "P1"; Num 150; Str "B"; Num 150];
        [Str "P2"; Num 0; Str "C"; Num 0]].

(** The same rows in another order. *)
Definition plants_std_reordered : DataFrame Z :=
  mkDF ["Plant ID"; "Capacity"; "Owner"; "Total capacity (ttpa)"]
       [[Str "P1"; Num 50; Str "B"; Num 50];
        [Str "P1"; Num 100; NA; Num 100];
        [Str "P2"; NA; NA; NA];
        [Str "P2"; NA; Str "C"; NA]].

(** The spec's synthetic capacity table, with one text that is no number. *)
Definition capacities : DataFrame Z :=
  mkDF ["capacity A"; "capacity B"]
       [[Num 10; NA]; [NA; Num 5]; [NA; Str "n/a"]].

(** An exported index column, a combined coordinates column and a
    [Latitude] column holding a text. *)
Definition sites : DataFrame Z :=
  mkDF ["Unnamed: 0"; " Owner"; "Coordinates"; "Latitude"]
       [[Num 0; Str "A"; Str "41, 20"; Str "north"];
        [Num 1; NA; Str "bad,value,x"; NA];
        [Num 2; NA; NA; Num 7]].

Definition two_index_columns : DataFrame Z :=
  mkDF ["Unnamed: 0"; "Unnamed: 1"; "x"] [[Num 0; Num 1; Str "a"]].


Example standardize_plants : _standardize_columns plants = plants_std.
Proof. by vm_compute. Qed.

Example aggregate_plants : _aggregate_duplicates plants_std = Ok plants_out.
Proof. by vm_compute. Qed.

Example standardize_sites :
  _standardize_columns sites =
    mkDF ["Owner"; "Coordinates"; "latitude"; "longitude"]
         [[Str "A"; Str "41, 20"; Str "north"; Num 20];
          [NA; Str "bad,value,x"; NA; NA];
          [NA; NA; Num 7; NA]].
Proof. by vm_compute. Qed.

(** C1: a group whose rows all miss the capacity gets the total 0, not a
    missing total: [P2] has a missing per-row total on both its rows
    after standardization, and 0 in both capacity columns after
    aggregation, because ["sum"] runs with [min_count=0]. *)
Theorem all_missing_group_sums_to_zero :
  column (_standardize_columns plants) TOTAL = [NA; Num 100; NA; Num 50] ∧
  group_values (_standardize_columns plants) ["Plant ID"] [Str "P2"] TOTAL = [NA; NA] ∧
  _aggregate_duplicates (_standardize_columns plants) = Ok plants_out ∧
  column plants_out "Plant ID" = [Str "P1"; Str "P2"] ∧
  column plants_out TOTAL = [Num 150; Num 0] ∧
  column plants_out "Capacity" = [Num 150; Num 0] ∧
  agg_sum (num:=Z) [NA; NA] = Ok (Num 0).
Proof. split_and!; by vm_compute. Qed.

(** C2, counterexample: a second standardization adds the derived total
    to itself, and drops a second leading unnamed column. *)
Lemma standardize_not_idempotent :
  data (_standardize_columns capacities) =
    [[Num 10; NA; Num 10]; [NA; Num 5; Num 5]; [NA; Str "n/a"; NA]] ∧
  data (_standardize_columns (_standardize_columns capacities)) =
    [[Num 10; NA; Num 20]; [NA; Num 5; Num 10]; [NA; Str "n/a"; NA]] ∧
  columns (_standardize_columns two_index_columns) = ["Unnamed: 1"; "x"] ∧
  columns (_standardize_columns (_standardize_columns two_index_columns)) = ["x"] ∧
  _standardize_columns (_standardize_columns capacities)
    ≠ _standardize_columns capacities ∧
  _standardize_columns (_standardize_columns two_index_columns)
    ≠ _standardize_columns two_index_columns.
Proof. split_and!; by vm_compute. Qed.

Lemma standardize_twice_witness :
  columns (_standardize_columns (_standardize_columns sites)) =
    columns (_standardize_columns sites) ∧
  length (data (_standardize_columns (_standardize_columns sites))) =
    length (data (_standardize_columns sites)) ∧
  (∀ c, c ≠ TOTAL →
     column (_standardize_columns (_standardize_columns sites)) c =
       column (_standardize_columns sites) c) ∧
  (cap_cols (_standardize_columns sites) = [] →
     _standardize_columns (_standardize_columns sites) = _standardize_columns sites).
Proof.
  apply (standardize_twice sites).
  - unfold aligned. simpl. repeat constructor.
  - by vm_compute.
Defined.


(** C4, counterexample: the first row of group [P1] has no owner, and the
    output row carries the owner of the second row. *)
Lemma first_row_value_not_kept :
  grouping_key (columns plants_std) = Ok ["Plant ID"] ∧
  group_keys plants_std ["Plant ID"] = [[Str "P1"]; [Str "P2"]] ∧
  group_rows plants_std ["Plant ID"] [Str "P1"] =
    [[Str "P1"; Num 100; NA; Num 100]; [Str "P1"; Num 50; Str "B"; Num 50]] ∧
  group_values plants_std ["Plant ID"] [Str "P1"] "Owner" = [NA; Str "B"] ∧
  _aggregate_duplicates plants_std = Ok plants_out ∧
  column plants_out "Owner" = [Str "B"; Str "C"].
Proof. split_and!; by vm_compute. Qed.

Lemma first_wins_witness :
  column plants_out "Owner" =
    (λ k, first_valid (group_values plants_std ["Plant ID"] k "Owner"))
      <$> group_keys plants_std ["Plant ID"].
Proof.
  apply (first_wins_skips_missing plants_std ["Plant ID"] plants_out "Owner").
  - by vm_compute.
  - by vm_compute.
  - apply (bool_decide_unpack _). by vm_compute.
  - apply (bool_decide_unpack _). by vm_compute.
  - by vm_compute.
  - done.
Defined.

Lemma grouping_key_witness :
  grouping_key ["Plant ID"; "Owner"] = Ok ["Plant ID"] ∧
  grouping_key ["Region"; "longitude"; "Owner"] = Ok ["Owner"; "longitude"] ∧
  grouping_key ["Region"; "Capacity"] = Ok ["Region"].
Proof.
  split_and!.
  - apply (proj1 (grouping_key_priority (num:=Z) ["Plant ID"; "Owner"])).
    apply (bool_decide_unpack _). by vm_compute.
  - destruct (grouping_key_priority (num:=Z) ["Region"; "longitude"; "Owner"])
      as (_ & Hfields & _).
    apply Hfields.
    + apply (bool_decide_unpack _). by vm_compute.
    + by vm_compute.
  - destruct (grouping_key_priority (num:=Z) ["Region"; "Capacity"])
      as (_ & _ & _ & Hfirst & _).
    apply Hfirst.
    + apply (bool_decide_unpack _). by vm_compute.
    + by vm_compute.
Defined.

(** A table without [Plant ID]: the key is (owner, latitude), and two
    rows share the key (missing owner, 2). *)
Definition unnamed_plants : DataFrame Z :=
  mkDF ["Owner"; "latitude"; "Region"]
       [[NA; Num 2; Str "x"];
        [Str "A"; NA; Str "y"];
        [NA; Num 2; Str "z"];
        [Num 3; NA; NA]].



(** [P2] comes first in the input and second in the output; reordering
    the input rows changes neither the groups nor their order. *)
Lemma output_rows_in_key_order_witness :
  key_of (columns plants_std) ["Plant ID"] <$> data plants_std
    = [[Str "P2"]; [Str "P1"]; [Str "P2"]; [Str "P1"]] ∧
  key_of (columns plants_out) ["Plant ID"] <$> data plants_out
    = [[Str "P1"]; [Str "P2"]] ∧
  StronglySorted (λ k1 k2, tuple_le k1 k2 ∧ k1 ≠ k2)
    (group_keys plants_std ["Plant ID"]) ∧
  group_keys plants_std_reordered ["Plant ID"] = group_keys plants_std ["Plant ID"] ∧
  _aggregate_duplicates plants_std_reordered =
    Ok (mkDF ["Plant ID"; "Capacity"; "Owner"; "Total capacity (ttpa)"]
             [[Str "P1"; Num 150; Str "B"; Num 150];
              [Str "P2"; Num 0; Str "C"; Num 0]]).
Proof.
  pose proof (output_rows_in_key_order plants_std ["Plant ID"] plants_out)
    as (_ & Hstrict & _ & _ & Hkeys & Hperm).
  - by vm_compute.
  - by vm_compute.
  - split_and!; [by vm_compute| |done| |by vm_compute].
    + rewrite Hkeys; [by vm_compute|]. repeat constructor; by vm_compute.
    + eapply (Hperm plants_std_reordered); [done| |by vm_compute].
      simpl. apply (bool_decide_unpack _). by vm_compute.
Defined.

Lemma extract_lat_lon_witness :
  _extract_lat_lon (Str "41, -20") = (Num 41, Num (-20)) ∧
  _extract_lat_lon (num:=Z) (Str "41, north") = (NA, NA) ∧
  _extract_lat_lon (num:=Z) (Str "41; 20") = (NA, NA).
Proof.
  destruct (extract_lat_lon_spec (num:=Z)) as (_ & _ & Hcount & _ & Hok & Hfail & _).
  split_and!.
  - exact (Hok "41" " -20" (Some 41) (Some (-20)) eq_refl eq_refl eq_refl eq_refl).
  - exact (Hfail "41" " north" eq_refl eq_refl (or_intror eq_refl)).
  - by apply Hcount.
Defined.



(** C9, counterexample: [Latitude] is renamed as it is, text included. *)
Lemma renamed_latitude_keeps_text :
  column sites "Latitude" = [Str "north"; NA; Num 7] ∧
  column (_standardize_columns sites) "latitude" = [Str "north"; NA; Num 7] ∧
  column (_standardize_columns sites) "longitude" = [Num 20; NA; NA].
Proof. split_and!; by vm_compute. Qed.

Lemma derived_coordinates_witness :
  "longitude" ∈ columns (_standardize_columns sites) ∧
  column (_standardize_columns sites) "longitude" =
    snd <$> (_extract_lat_lon <$> column (before_coordinates sites) "Coordinates") ∧
  Forall float_or_missing (column (_standardize_columns sites) "longitude").
Proof.
  destruct (derived_coordinates_numeric sites) as (_ & Hlon & _).
  - unfold aligned. simpl. repeat constructor.
  - apply Hlon.
    + apply (bool_decide_unpack _). by vm_compute.
    + apply (bool_decide_unpack _). by vm_compute.
Defined.


(** ** The further properties on concrete tables *)

(** Two plants, one of them without any workforce figure, and a region
    that is missing on one row. *)
Definition staffed : DataFrame Z :=
  mkDF ["Region"; "Plant ID"; "Workforce size"]
       [[Str "South"; Str "P2"; NA];
        [Str "North"; Str "P1"; Num 40];
        [NA; Str "P1"; Num 75];
        [Str "South"; Str "P2"; NA]].

Definition staffed_out : DataFrame Z :=
  mkDF ["Plant ID"; "Region"; "Workforce size"]
       [[Str "P1"; Str "North"; Num 75];
        [Str "P2"; Str "South"; NA]].

(** Totals below zero, at zero, above zero and missing. *)
Definition balances : DataFrame Z :=
  mkDF ["Plant ID"; "Total capacity (ttpa)"; "latitude"; "longitude"]
       [[Str "P1"; Num (-5); Num 41; Num 20];
        [Str "P2"; Num 30; NA; Num 3];
        [Str "P3"; NA; NA; NA];
        [Str "P4"; Num 0; Num 7; Num 8]].

Example aggregate_staffed : _aggregate_duplicates staffed = Ok staffed_out.
Proof. by vm_compute. Qed.

Example options_staffed :
  options "Region" staffed = Ok [Str "North"; Str "South"] ∧
  options "Workforce size" staffed = Ok [Num 40; Num 75] ∧
  options "Owner" unnamed_plants = Raise TypeError.
Proof. split_and!; by vm_compute. Qed.

Example filters_on_balances :
  initial_cap_range balances = Some (Some 0, Some 30) ∧
  data (apply_filters balances [] [] [] (Some (0, 30))) =
    [[Str "P2"; Num 30; NA; Num 3]; [Str "P4"; Num 0; Num 7; Num 8]] ∧
  total_plants (apply_filters balances [] [] [] (Some (0, 30))) = 2%nat ∧
  total_cap balances (apply_filters balances [] [] [] (Some (0, 30))) = 30 ∧
  total_cap balances balances = 25 ∧
  map_is_drawn balances = true ∧
  map_points balances =
    [[Str "P1"; Num (-5); Num 41; Num 20]; [Str "P4"; Num 0; Num 7; Num 8]].
Proof. split_and!; by vm_compute. Qed.

Lemma workforce_group_max_witness :
  column staffed_out "Workforce size" = [Num 75; NA] ∧
  Forall2 (λ k v, is_max_of (group_values staffed ["Plant ID"] k "Workforce size") v)
          (group_keys staffed ["Plant ID"]) (column staffed_out "Workforce size").
Proof.
  split; [by vm_compute|].
  apply (workforce_group_max staffed ["Plant ID"] staffed_out).
  - by vm_compute.
  - by vm_compute.
  - apply (bool_decide_unpack _). by vm_compute.
  - unfold column. simpl. repeat constructor; by intros [].
Defined.

Lemma aggregated_columns_witness :
  columns staffed_out = ["Plant ID"; "Region"; "Workforce size"] ∧
  columns staffed_out ≡ₚ columns staffed ∧
  aligned staffed_out.
Proof.
  destruct (aggregated_columns staffed ["Plant ID"] staffed_out) as (Hcols & Hperm & Hal).
  - apply (bool_decide_unpack _). by vm_compute.
  - by vm_compute.
  - repeat constructor; by vm_compute.
  - by vm_compute.
  - split_and!; [|done|done]. rewrite Hcols. by vm_compute.
Defined.

Lemma aggregated_row_count_witness :
  (length (data staffed_out) ≤ length (data staffed))%nat ∧
  (data staffed_out = [] ↔ data staffed = []).
Proof.
  destruct (aggregated_row_count staffed ["Plant ID"] staffed_out) as (Hle & Hnil & _).
  - by vm_compute.
  - by vm_compute.
  - by split.
Defined.


Lemma standardize_invariants_witness :
  length (data (_standardize_columns sites)) = 3%nat ∧
  aligned (_standardize_columns sites) ∧
  "latitude" ∈ columns (_standardize_columns sites) ∧
  "longitude" ∈ columns (_standardize_columns sites).
Proof.
  destruct (standardize_invariants sites) as (Hlen & Hal & _ & _ & _ & Hcoord & _).
  - unfold aligned. simpl. repeat constructor.
  - split_and!; [by rewrite Hlen|done| |].
    + apply Hcoord. apply (bool_decide_unpack _). by vm_compute.
    + apply Hcoord. apply (bool_decide_unpack _). by vm_compute.
Defined.

Lemma pipeline_total_is_number_witness :
  column plants_out TOTAL = [Num 150; Num 0] ∧
  Forall is_number (column plants_out TOTAL).
Proof.
  split; [by vm_compute|].
  apply (pipeline_total_is_number plants plants_out).
  - unfold aligned. simpl. repeat constructor.
  - apply (bool_decide_unpack _). by vm_compute.
  - by vm_compute.
Defined.

Lemma select_all_hides_missing_witness :
  data (filter_isin (Some "Region") [Str "North"; Str "South"] staffed) =
    [[Str "South"; Str "P2"; NA]; [Str "North"; Str "P1"; Num 40];
     [Str "South"; Str "P2"; NA]] ∧
  filter_isin (Some "Region") [] staffed = staffed.
Proof.
  destruct (select_all_hides_missing staffed "Region" [Str "North"; Str "South"])
    as (_ & Hall & Hnone).
  - by vm_compute.
  - split; [|done]. destruct Hall as [_ ->]; [done|]. by vm_compute.
Defined.

Lemma options_sorted_distinct_witness :
  StronglySorted (λ a b, cell_le a b ∧ a ≠ b) [Str "North"; Str "South"] ∧
  options "Owner" unnamed_plants = Raise TypeError.
Proof.
  split.
  - destruct (options_sorted_distinct staffed "Region") as (Hok & _ & _).
    apply (Hok [Str "North"; Str "South"]). by vm_compute.
  - destruct (options_sorted_distinct unnamed_plants "Owner") as (_ & Hraise & _).
    apply Hraise. split.
    + exists 3. apply (bool_decide_unpack _). by vm_compute.
    + exists "A". apply (bool_decide_unpack _). by vm_compute.
Defined.

Lemma initial_range_keeps_nonnegative_witness :
  0 ≤ 30 ∧
  data (filter_capacity (capacity_col balances) (Some (0, 30)) balances) =
    [[Str "P2"; Num 30; NA; Num 3]; [Str "P4"; Num 0; Num 7; Num 8]].
Proof.
  destruct (initial_range_keeps_nonnegative balances 0 30) as (_ & Hle & _ & Hdata).
  - by vm_compute.
  - split; [done|]. rewrite Hdata. by vm_compute.
Defined.

Lemma loaded_table_has_slider_witness :
  capacity_col plants_out = Some TOTAL ∧
  ∃ lo hi, initial_cap_range plants_out = Some (Some lo, Some hi).
Proof.
  apply (loaded_table_has_slider
           ({[ INPUT_FILE := plants ]} : gmap string (DataFrame Z)) plants plants_out).
  - by vm_compute.
  - unfold aligned. simpl. repeat constructor.
  - apply (bool_decide_unpack _). by vm_compute.
  - by vm_compute.
  - done.
Defined.

Lemma dashboard_stops_without_rows_witness :
  empty plants_out = false ∧
  columns (mkDF (num:=Z) ["Plant ID"] []) ≠ [] ∧
  empty (mkDF (num:=Z) ["Plant ID"] []) = true.
Proof.
  split; [by vm_compute|].
  destruct (dashboard_stops_without_rows
              ({[ INPUT_FILE := mkDF ["Plant ID"] [] ]} : gmap string (DataFrame Z))
              (mkDF ["Plant ID"] []) (mkDF ["Plant ID"] [])) as [Hcols Hempty].
  - by vm_compute.
  - by vm_compute.
  - split; [done|]. by apply Hempty.
Defined.
